(** * N-body gravitational integrator ([main.py], class [Simulation])

    A shallow embedding of the [Simulation] class: the two Python lists
    [masses] and [bodies], the cached count [n], the clock [t] and the
    [running] flag, together with the mutators, the acceleration
    evaluator, the two time-stepping methods and the diagnostics.

    Numbers are kept abstract behind the interface [Arith], so that the
    structural results hold for every arithmetic, IEEE binary64 included.
    Two instances are given afterwards: exact real arithmetic ([R]) for the
    algebraic identities, and binary64 as specified by [SpecFloat] for
    concrete runs of the program.

    A [Simulation] value models one instance that owns its two lists (the
    constructor's default arguments are list objects shared between
    instances; sharing is outside this model).  Array entries and masses
    are numbers of the working precision; an array built from integer
    literals holds the same values.  Methods are computations in a
    state-and-exception monad: a raised Python exception leaves whatever
    was mutated before it in place. *)

From Stdlib Require Import ZArith List Bool Lia Reals Lra SpecFloat.
From stdpp Require Import base list strings.

Local Open Scope Z_scope.

(** ** Arithmetic interface *)

(** What the program needs of its numbers.  [of_int] is Python's implicit
    conversion of an [int] literal, [npow x k] is [x ** k] for a literal
    exponent, [nsingle] is [.astype(np.single).astype(np.double)] on one
    component and [nis_zero] is the test behind Python's
    [ZeroDivisionError] on scalar division, which the literal [0] meets. *)
Class Arith := {
  num : Type;
  of_int : Z -> num;
  nadd : num -> num -> num;
  nsub : num -> num -> num;
  nmul : num -> num -> num;
  ndiv : num -> num -> num;
  nsqrt : num -> num;
  npow : num -> positive -> num;
  nsingle : num -> num;
  nis_zero : num -> bool;
  nis_zero_0 : nis_zero (of_int 0) = true
}.

(** ** Exceptions and the method monad *)

Inductive exn := IndexError | ZeroDivisionError.

Inductive outcome (A : Type) :=
| Ok (a : A)
| Raise (e : exn).
Arguments Ok {A} a.
Arguments Raise {A} e.

(** Python's index normalisation for a list of length [len]:
    [0 .. len-1] address from the front, [-len .. -1] from the back. *)
Definition py_index (len : nat) (i : Z) : option nat :=
  if (0 <=? i) && (i <? Z.of_nat len) then Some (Z.to_nat i)
  else if (i <? 0) && (- Z.of_nat len <=? i) then Some (Z.to_nat (i + Z.of_nat len))
  else None.

(** [range(a, b)] *)
Definition py_range (a b : Z) : list Z :=
  map (fun k => a + Z.of_nat k) (seq 0 (Z.to_nat (b - a))).

Section Model.
Context {A : Arith}.

(** The module-level gravitational constant [G] (the driver rebinds it
    between steps; methods read it when they run). *)
Variable G : num.

(** *** Arrays *)

(** A length-3 [ndarray]. *)
Record vec := Vec { vx : num; vy : num; vz : num }.

(** The 2x3 state block [np.array([pos, vel])]: row 0 is the position,
    row 1 the velocity. *)
Record Body := mkBody { pos : vec; vel : vec }.

Definition vmap (f : num -> num) (v : vec) : vec :=
  Vec (f (vx v)) (f (vy v)) (f (vz v)).
Definition vmap2 (f : num -> num -> num) (u v : vec) : vec :=
  Vec (f (vx u) (vx v)) (f (vy u) (vy v)) (f (vz u) (vz v)).

(** [np.zeros(3)] *)
Definition vzeros : vec := Vec (of_int 0) (of_int 0) (of_int 0).
Definition vadd : vec -> vec -> vec := vmap2 nadd.
Definition vsub : vec -> vec -> vec := vmap2 nsub.
(** scalar [*] array, array [*] scalar, array [/] scalar, scalar [+] array *)
Definition smul_l (a : num) : vec -> vec := vmap (nmul a).
Definition smul_r (v : vec) (a : num) : vec := vmap (fun x => nmul x a) v.
Definition sdiv_r (v : vec) (a : num) : vec := vmap (fun x => ndiv x a) v.
Definition sadd_l (a : num) : vec -> vec := vmap (nadd a).

(** [np.linalg.norm] of a 1-D array: the square root of its dot product
    with itself. *)
Definition dot (u v : vec) : num :=
  nadd (nadd (nmul (vx u) (vx v)) (nmul (vy u) (vy v))) (nmul (vz u) (vz v)).
Definition norm (v : vec) : num := nsqrt (dot v v).

Definition body_add (a b : Body) : Body :=
  mkBody (vadd (pos a) (pos b)) (vadd (vel a) (vel b)).
Definition body_smul_r (a : Body) (k : num) : Body :=
  mkBody (smul_r (pos a) k) (smul_r (vel a) k).
(** [.astype(np.single).astype(np.double)] on a 2x3 array *)
Definition body_single (a : Body) : Body :=
  mkBody (vmap nsingle (pos a)) (vmap nsingle (vel a)).

(** *** The object *)

Record Simulation := mkSim {
  masses : list num;
  bodies : list Body;
  t : num;
  n : Z;
  running : bool
}.

Definition set_masses (ms : list num) (s : Simulation) : Simulation :=
  mkSim ms (bodies s) (t s) (n s) (running s).
Definition set_bodies (bs : list Body) (s : Simulation) : Simulation :=
  mkSim (masses s) bs (t s) (n s) (running s).
Definition set_t (x : num) (s : Simulation) : Simulation :=
  mkSim (masses s) (bodies s) x (n s) (running s).
Definition set_n (k : Z) (s : Simulation) : Simulation :=
  mkSim (masses s) (bodies s) (t s) k (running s).

(** *** The monad of methods *)

Definition M (B : Type) : Type := Simulation -> outcome B * Simulation.

Definition ret {B} (b : B) : M B := fun s => (Ok b, s).
Definition raise {B} (e : exn) : M B := fun s => (Raise e, s).
Definition bind {B C} (m : M B) (k : B -> M C) : M C :=
  fun s => match m s with
           | (Ok b, s') => k b s'
           | (Raise e, s') => (Raise e, s')
           end.
Definition gets {B} (f : Simulation -> B) : M B := fun s => (Ok (f s), s).
Definition modify (f : Simulation -> Simulation) : M unit :=
  fun s => (Ok tt, f s).

Notation "'let!' x ':=' m 'in' k" := (bind m (fun x => k))
  (at level 10, x name, m at level 100, k at level 200).
Notation "m ';;;' k" := (bind m (fun _ => k))
  (at level 100, right associativity).

(** A [for] loop threading a local variable. *)
Fixpoint foldM {B C} (f : C -> B -> M C) (l : list B) (acc : C) : M C :=
  match l with
  | [] => ret acc
  | x :: l' => let! acc' := f acc x in foldM f l' acc'
  end.

(** A [for] loop filling the slots of a fresh list in index order. *)
Fixpoint mapM {B C} (f : B -> M C) (l : list B) : M (list C) :=
  match l with
  | [] => ret []
  | x :: l' => let! y := f x in let! ys := mapM f l' in ret (y :: ys)
  end.

(** [l[i]] *)
Definition getitem {B} (l : list B) (i : Z) : M B :=
  match py_index (length l) i with
  | Some k => match l !! k with Some x => ret x | None => raise IndexError end
  | None => raise IndexError
  end.

(** [l[i] = x], giving the updated list *)
Definition setitem {B} (l : list B) (i : Z) (x : B) : M (list B) :=
  match py_index (length l) i with
  | Some k => ret (<[k:=x]> l)
  | None => raise IndexError
  end.

(** [l.pop(i)], giving the list that remains *)
Definition pop {B} (l : list B) (i : Z) : M (list B) :=
  match py_index (length l) i with
  | Some k => ret (delete k l)
  | None => raise IndexError
  end.

(** *** Construction and mutators *)

Definition __init__ (ms : list num) (bs : list Body) : Simulation :=
  mkSim ms bs (of_int 0) (Z.of_nat (length ms)) true.

Definition add_body (mass : num) (p v : vec) : M unit :=
  let body := mkBody p v in
  modify (fun s => set_masses (masses s ++ [mass]) s);;;
  modify (fun s => set_bodies (bodies s ++ [body]) s);;;
  modify (fun s => set_n (n s + 1) s).

Definition set_body (index : Z) (mass : num) (p v : vec) : M unit :=
  let body := mkBody p v in
  let! ms := gets masses in
  let! ms' := setitem ms index mass in
  modify (set_masses ms');;;
  let! bs := gets bodies in
  let! bs' := setitem bs index body in
  modify (set_bodies bs').

Definition remove_body (index : Z) : M unit :=
  let! ms := gets masses in
  let! ms' := pop ms index in
  modify (set_masses ms');;;
  let! bs := gets bodies in
  let! bs' := pop bs index in
  modify (set_bodies bs');;;
  modify (fun s => set_n (n s - 1) s).

(** *** Acceleration and the right-hand side *)

(** The contribution of body [j] to the pull on a body, [offset] being
    the vector from that body to [j]:
    [G * masses[j] * offset / np.linalg.norm(offset) ** 3]. *)
Definition pull (mj : num) (offset : vec) : vec :=
  sdiv_r (smul_l (nmul G mj) offset) (npow (norm offset) 3).

Definition dv_dt (i : Z) (body : option Body) : M vec :=
  let! body := match body with
               | None => let! bs := gets bodies in getitem bs i
               | Some b => ret b
               end in
  let! cnt := gets n in
  foldM (fun F j =>
           if i =? j then ret F
           else
             let! bs := gets bodies in
             let! bj := getitem bs j in
             let! bi := getitem bs i in
             let offset := vsub (pos bj) (pos bi) in
             let! ms := gets masses in
             let! mj := getitem ms j in
             ret (vadd F (pull mj offset)))
        (py_range 0 cnt) vzeros.

Definition ode (i : Z) (body : option Body) : M Body :=
  let! body := match body with
               | None => let! bs := gets bodies in getitem bs i
               | Some b => ret b
               end in
  let! a := dv_dt i (Some body) in
  ret (mkBody (vel body) a).

(** [self.ode(i)] is the array [[velocity, acceleration]]: its row 0
    (field [pos] of the block) holds the velocity and its row 1 (field
    [vel]) the acceleration. *)

(** *** Integrators *)

Definition step_euler (dt : num) : M unit :=
  let! cnt := gets n in
  let! new := mapM (fun i =>
                      let! bs := gets bodies in
                      let! b := getitem bs i in
                      let! d := ode i None in
                      ret (body_add b (body_smul_r d dt)))
                   (py_range 0 cnt) in
  modify (set_bodies new);;;
  modify (fun s => set_t (nadd (t s) dt) s).

Definition step_sieuler (dt : num) : M unit :=
  let! cnt := gets n in
  let! new := mapM (fun i =>
                      let! bs := gets bodies in
                      let! b := getitem bs i in
                      let! d := ode i None in
                      let y0 := body_add b (body_smul_r d dt) in
                      let r1 := pos y0 in
                      let v1 := vel y0 in
                      let! d' := ode i None in
                      let r1 := vadd r1 (smul_r (smul_r (vel d') dt) dt) in
                      ret (body_single (mkBody r1 v1)))
                   (py_range 0 cnt) in
  modify (set_bodies new);;;
  modify (fun s => set_t (nadd (t s) dt) s).

(** *** Diagnostics *)

Definition energy : M num :=
  let e := of_int 0 in
  let! amt := gets n in
  foldM (fun e i =>
           let! ms := gets masses in
           let! mi := getitem ms i in
           let! bs := gets bodies in
           let! bi := getitem bs i in
           let e := nadd e (ndiv (nmul mi (npow (norm (vel bi)) 2)) (of_int 2)) in
           foldM (fun e j =>
                    let! ms := gets masses in
                    let! mi := getitem ms i in
                    let! mj := getitem ms j in
                    let! bs := gets bodies in
                    let! bj := getitem bs j in
                    let! bi := getitem bs i in
                    ret (nsub e (ndiv (nmul (nmul G mi) mj)
                                      (norm (vsub (pos bj) (pos bi))))))
                 (py_range (i + 1) amt) e)
        (py_range 0 amt) e.

(** What the builtin [sum] and the division after it can hold: a Python
    number (the start value [0] while nothing has been added) or an
    array. *)
Inductive pyval :=
| PyNum (x : num)
| PyArr (v : vec).

(** [acc + x] inside [sum], for an array [x] *)
Definition py_add (acc : pyval) (x : vec) : pyval :=
  match acc with
  | PyNum a => PyArr (sadd_l a x)
  | PyArr u => PyArr (vadd u x)
  end.

(** [a / d] for a Python number [d]: between Python numbers a zero divisor
    raises; an array divides elementwise and never raises. *)
Definition py_truediv (a : pyval) (d : num) : M pyval :=
  match a with
  | PyNum x => if nis_zero d then raise ZeroDivisionError else ret (PyNum (ndiv x d))
  | PyArr v => ret (PyArr (sdiv_r v d))
  end.

(** [sum(self.masses)] *)
Definition sum_masses (ms : list num) : num := fold_left nadd ms (of_int 0).

Definition center_of_mass : M pyval :=
  let! cnt := gets n in
  let! num := foldM (fun acc i =>
                       let! ms := gets masses in
                       let! mi := getitem ms i in
                       let! bs := gets bodies in
                       let! bi := getitem bs i in
                       ret (py_add acc (smul_l mi (pos bi))))
                    (py_range 0 cnt) (PyNum (of_int 0)) in
  let! ms := gets masses in
  py_truediv num (sum_masses ms).

Definition linear_momentum : M pyval :=
  let! cnt := gets n in
  foldM (fun acc i =>
           let! ms := gets masses in
           let! mi := getitem ms i in
           let! bs := gets bodies in
           let! bi := getitem bs i in
           ret (py_add acc (smul_l mi (vel bi))))
        (py_range 0 cnt) (PyNum (of_int 0)).

(** *** Closed forms used in the statements *)

(** The lock-step invariant: both lists have the length cached in [n]. *)
Definition consistent (s : Simulation) : Prop :=
  n s = Z.of_nat (length (masses s)) /\ length (bodies s) = length (masses s).

(** The two lists read side by side: entry [k] is body [k]'s mass and
    state block. *)
Definition paired (s : Simulation) : list (num * Body) :=
  zip (masses s) (bodies s).

Definition mass_at (s : Simulation) (j : nat) : num :=
  nth j (masses s) (of_int 0).
Definition body_at (s : Simulation) (j : nat) : Body :=
  nth j (bodies s) (mkBody vzeros vzeros).

(** The pull on a point [p] standing for body [i]: the contributions of
    the other bodies at their stored positions, accumulated from
    [np.zeros(3)] by ascending index [j], [j = i] skipped. *)
Definition accel (s : Simulation) (i : nat) (p : vec) : vec :=
  fold_left (fun F j =>
               if Nat.eqb i j then F
               else vadd F (pull (mass_at s j) (vsub (pos (body_at s j)) p)))
            (seq 0 (length (bodies s))) vzeros.

(** The slot a forward-Euler step computes for a body [b] whose
    acceleration is [a]: [b + [[vel, a]] * dt]. *)
Definition euler_slot (dt : num) (b : Body) (a : vec) : Body :=
  mkBody (vadd (pos b) (smul_r (vel b) dt)) (vadd (vel b) (smul_r a dt)).

(** The slot a semi-implicit step computes: the Euler slot, its position
    advanced by [a * dt * dt], the whole block cast to single and back. *)
Definition sieuler_slot (dt : num) (b : Body) (a : vec) : Body :=
  body_single
    (mkBody (vadd (vadd (pos b) (smul_r (vel b) dt)) (smul_r (smul_r a dt) dt))
            (vadd (vel b) (smul_r a dt))).

(** The accumulator of [energy] after the whole double loop. *)
Definition energy_acc (s : Simulation) : num :=
  let len := length (bodies s) in
  fold_left (fun e i =>
               fold_left (fun e j =>
                            nsub e (ndiv (nmul (nmul G (mass_at s i)) (mass_at s j))
                                         (norm (vsub (pos (body_at s j))
                                                     (pos (body_at s i))))))
                         (seq (S i) (len - S i))
                         (nadd e (ndiv (nmul (mass_at s i)
                                             (npow (norm (vel (body_at s i))) 2))
                                       (of_int 2))))
            (seq 0 len) (of_int 0).

(** The accumulator of the [sum] over [masses[i] * row_i]. *)
Definition weighted_sum (row : Body -> vec) (s : Simulation) : pyval :=
  fold_left (fun acc i => py_add acc (smul_l (mass_at s i) (row (body_at s i))))
            (seq 0 (length (bodies s))) (PyNum (of_int 0)).

(** The net force, [sum_i m_i * a_i], every [a_i] being what
    [dv_dt(i)] returns. *)
Definition net_force (s : Simulation) : vec :=
  fold_left (fun F i => vadd F (smul_l (mass_at s i)
                                       (accel s i (pos (body_at s i)))))
            (seq 0 (length (bodies s))) vzeros.

(** The common tail of both integrators: the computation of the new
    list, then the two assignments. *)
Definition commit (dt : num) (m : M (list Body)) : M unit :=
  bind m (fun new =>
    bind (modify (set_bodies new))
         (fun _ => modify (fun s => set_t (nadd (t s) dt) s))).

(** The loop bodies of [step_euler] and [step_sieuler]. *)
Definition euler_slots (dt : num) : Z -> M Body := fun i =>
  bind (gets bodies) (fun bs =>
  bind (getitem bs i) (fun b =>
  bind (ode i None) (fun d =>
  ret (body_add b (body_smul_r d dt))))).

Definition sieuler_slots (dt : num) : Z -> M Body := fun i =>
  bind (gets bodies) (fun bs =>
  bind (getitem bs i) (fun b =>
  bind (ode i None) (fun d =>
  bind (ode i None) (fun d' =>
  ret (body_single
         (mkBody (vadd (pos (body_add b (body_smul_r d dt)))
                       (smul_r (smul_r (vel d') dt) dt))
                 (vel (body_add b (body_smul_r d dt))))))))).

(** A method that never writes to the object. *)
Definition read_only {B} (m : M B) : Prop := forall s, snd (m s) = s.

End Model.

Arguments Vec {A} vx vy vz.
Arguments mkBody {A} pos vel.
Arguments mkSim {A} masses bodies t n running.
Arguments PyNum {A} x.
Arguments PyArr {A} v.

(** ** Exact real arithmetic *)

(** The reals, with an arbitrary function [rnd] standing for the
    single-precision round trip. *)
Definition Rzerob (x : R) : bool := if Req_EM_T x 0 then true else false.

Definition Rzerob_0 : Rzerob (IZR 0) = true :=
  match Req_EM_T (IZR 0) 0 as d return (if d then true else false) = true with
  | left _ => eq_refl
  | right ne => match ne eq_refl with end
  end.

Definition R_arith (rnd : R -> R) : Arith := {|
  num := R;
  of_int := IZR;
  nadd := Rplus;
  nsub := Rminus;
  nmul := Rmult;
  ndiv := Rdiv;
  nsqrt := sqrt;
  npow := fun x k => pow x (Pos.to_nat k);
  nsingle := rnd;
  nis_zero := Rzerob;
  nis_zero_0 := Rzerob_0
|}.

(** Finite sums of reals over a list of indices. *)
Definition Rsum (l : list nat) (f : nat -> R) : R :=
  fold_right (fun i acc => f i + acc)%R 0%R l.

Section RealClosedForms.
Variable rnd : R -> R.
Variable G : R.
Variable s : @Simulation (R_arith rnd).

Local Abbreviation len := (length (bodies s)).
Local Abbreviation m i := (mass_at s i : R).
Local Abbreviation p i := (pos (body_at s i)).
Local Abbreviation v i := (vel (body_at s i)).

(** Newton's formula as the specification writes it, for a point [q]
    standing for body [i]:
    [G * sum_{j <> i} m_j (p_j - q) / |p_j - q|^3], one coordinate at a
    time. *)
Definition newton_coord (c : @vec (R_arith rnd) -> R) (i : nat)
    (q : @vec (R_arith rnd)) : R :=
  (G * Rsum (seq 0 len)
         (fun j => if Nat.eqb i j then 0
                   else m j * (c (p j) - c q) / norm (vsub (p j) q) ^ 3))%R.

Definition newton (i : nat) (q : @vec (R_arith rnd)) : @vec (R_arith rnd) :=
  @Vec (R_arith rnd)
       (newton_coord vx i q) (newton_coord vy i q) (newton_coord vz i q).

(** [sum_i (1/2) m_i |v_i|^2] *)
Definition kinetic : R :=
  Rsum (seq 0 len) (fun i => 1 / 2 * m i * norm (v i) ^ 2)%R.

(** [sum_{i<j} G m_i m_j / |p_i - p_j|]: for every [i], the indices [j]
    from [i+1] up to the last. *)
Definition potential : R :=
  Rsum (seq 0 len)
       (fun i => Rsum (seq (S i) (len - S i))
                      (fun j => G * m i * m j / norm (vsub (p i) (p j))))%R.

(** [sum_i m_i] and [sum_i m_i p_i] *)
Definition total_mass : R := Rsum (seq 0 len) (fun i => m i).
Definition mass_moment : @vec (R_arith rnd) :=
  @Vec (R_arith rnd)
       (Rsum (seq 0 len) (fun i => m i * vx (p i))%R)
       (Rsum (seq 0 len) (fun i => m i * vy (p i))%R)
       (Rsum (seq 0 len) (fun i => m i * vz (p i))%R).

(** No two bodies at the same place. *)
Definition distinct_positions : Prop :=
  forall i j, (i < len)%nat -> (j < len)%nat -> i <> j -> p i <> p j.

End RealClosedForms.

(** ** IEEE binary64 *)

Module B64.

Definition prec : Z := 53.
Definition emax : Z := 1024.

(** Conversion of an integer, rounded to nearest even. *)
Definition of_Z (z : Z) : spec_float := binary_normalize prec emax z 0 false.

(** [x ** k] by repeated multiplication. *)
Definition pow (x : spec_float) (k : positive) : spec_float :=
  Pos.iter (fun y => SFmul prec emax y x) (of_Z 1) k.

(** Rounding to binary32 (24-bit significand, [emax = 128]) and widening
    back: the value is re-expressed with a binary64 significand. *)
Definition single (x : spec_float) : spec_float :=
  match x with
  | S754_finite s m e =>
      match binary_round 24 128 s m e with
      | S754_finite s' m' e' => binary_round prec emax s' m' e'
      | y => y
      end
  | _ => x
  end.

Definition is_zero (x : spec_float) : bool :=
  match x with S754_zero _ => true | _ => false end.

Definition arith : Arith := {|
  num := spec_float;
  of_int := of_Z;
  nadd := SFadd prec emax;
  nsub := SFsub prec emax;
  nmul := SFmul prec emax;
  ndiv := SFdiv prec emax;
  nsqrt := SFsqrt prec emax;
  npow := pow;
  nsingle := single;
  nis_zero := is_zero;
  nis_zero_0 := eq_refl
|}.

(** The program's initial [G = 0.8]: the double nearest to 8/10. *)
Definition G0 : spec_float := SFdiv prec emax (of_Z 8) (of_Z 10).

(** A time step of [0.01]. *)
Definition dt0 : spec_float := SFdiv prec emax (of_Z 1) (of_Z 100).

(** A zero of either sign, or NaN. *)
Definition zero_or_nan (x : spec_float) : bool :=
  match x with
  | S754_zero _ | S754_nan => true
  | _ => false
  end.

Definition nan3 : @vec arith := @Vec arith S754_nan S754_nan S754_nan.

(** An array of three integer literals. *)
Definition ints (x y z : Z) : @vec arith := @Vec arith (of_Z x) (of_Z y) (of_Z z).

(** The object the program builds at start-up: [Simulation()] followed by
    its three [add_body] calls. *)
Definition scene : @Simulation arith :=
  let s0 := __init__ (A:=arith) [] [] in
  let s1 := snd (add_body (A:=arith) (of_Z 1) (ints 0 0 0) (ints 0 0 0) s0) in
  let s2 := snd (add_body (A:=arith) (of_Z 1) (ints 1 0 0) (ints 0 1 0) s1) in
  snd (add_body (A:=arith) (of_Z 1) (ints (-1) 0 0) (ints 0 (-1) 0) s2).

(** Two bodies at the same place. *)
Definition twins : @Simulation arith :=
  __init__ (A:=arith) [of_Z 1; of_Z 1]
           [mkBody (ints 0 0 0) (ints 0 0 0); mkBody (ints 0 0 0) (ints 0 1 0)].

(** One body of mass zero. *)
Definition massless : @Simulation arith :=
  __init__ (A:=arith) [of_Z 0] [mkBody (ints 1 0 0) (ints 0 0 0)].

(** One body of mass 3 whose first coordinate is the double nearest to
    1/10. *)
Definition tenth : spec_float := SFdiv prec emax (of_Z 1) (of_Z 10).
Definition lone : @Simulation arith :=
  __init__ (A:=arith) [of_Z 3]
           [mkBody (@Vec arith tenth (of_Z 0) (of_Z 0)) (ints 0 0 0)].

(** A constructor call with lists of different lengths. *)
Definition lopsided : @Simulation arith := __init__ (A:=arith) [of_Z 1] [].

(** A candidate state for body 1 of [scene], away from its stored one. *)
Definition candidate : @Body arith := mkBody (ints 2 0 0) (ints 0 1 0).

End B64.

(** A two-body object over the reals. *)
Definition pair_R (rnd : R -> R) : @Simulation (R_arith rnd) :=
  __init__ (A:=R_arith rnd) [1%R; 1%R]
           [mkBody (@Vec (R_arith rnd) 0%R 0%R 0%R) (@Vec (R_arith rnd) 0%R 0%R 0%R);
            mkBody (@Vec (R_arith rnd) 1%R 0%R 0%R) (@Vec (R_arith rnd) 0%R 1%R 0%R)].

(** ** The rest of the class and its driver *)

(** What can be raised once subscripting a number is possible too. *)
Inductive raised :=
| Builtin (e : exn)
| TypeError.

(** [l[i]] outside a method. *)
Definition py_getitem {B} (l : list B) (i : Z) : outcome B :=
  match py_index (length l) i with
  | Some k => match l !! k with Some x => Ok x | None => Raise IndexError end
  | None => Raise IndexError
  end.

(** The module-level palette. *)
Definition COLORS : list (Z * Z * Z) :=
  [(255, 0, 0); (0, 255, 0); (0, 0, 255); (255, 255, 0)].

Section Rest.
Context {A : Arith}.
Variable G : num.

Notation "'let!' x ':=' m 'in' k" := (bind m (fun x => k))
  (at level 10, x name, m at level 100, k at level 200).

Definition set_running (r : bool) (s : Simulation) : Simulation :=
  mkSim (masses s) (bodies s) (t s) (n s) r.

(** [np.cross] of two arrays of length 3 *)
Definition cross (a b : vec) : vec :=
  Vec (nsub (nmul (vy a) (vz b)) (nmul (vz a) (vy b)))
      (nsub (nmul (vz a) (vx b)) (nmul (vx a) (vz b)))
      (nsub (nmul (vx a) (vy b)) (nmul (vy a) (vx b))).

(** Difference of two 2x3 blocks *)
Definition body_sub (a b : Body) : Body :=
  mkBody (vsub (pos a) (pos b)) (vsub (vel a) (vel b)).

(** [np.zeros([2, 3])], the default [reference_frame] *)
Definition zero_frame : Body := mkBody vzeros vzeros.

(** The [sum(...)] inside [angular_momentum]. *)
Definition angular_sum (reference_frame : Body) : M pyval :=
  let! cnt := gets n in
  foldM (fun acc i =>
           let! ms := gets masses in
           let! mi := getitem ms i in
           let! bs := gets bodies in
           let! bi := getitem bs i in
           let d := body_sub bi reference_frame in
           ret (py_add acc (smul_l mi (cross (pos d) (vel d)))))
        (py_range 0 cnt) (PyNum (of_int 0)).

(** [angular_momentum(reference_frame)]: the sum, subscripted by [2];
    subscripting the start value [0] of an empty sum is a [TypeError]. *)
Definition angular_momentum (reference_frame : Body) (s : Simulation)
  : (num + raised) * Simulation :=
  match angular_sum reference_frame s with
  | (Ok (PyArr w), s') => (inl (vz w), s')
  | (Ok (PyNum _), s') => (inr TypeError, s')
  | (Raise e, s') => (inr (Builtin e), s')
  end.

(** [v[i]] on an array of length 3 *)
Definition vec_getitem (v : vec) (i : Z) : M num :=
  getitem [vx v; vy v; vz v] i.

(** [to_xyz()]: the tuple of the three coordinate lists. *)
Definition to_xyz : M (list (list num)) :=
  mapM (fun i =>
          let! bs := gets bodies in
          mapM (fun b => vec_getitem (pos b) i) bs)
       (py_range 0 3).

(** *** The driver *)

(** The simulation together with the text of the play/pause button. *)
Record Panel := mkPanel {
  panel_sim : Simulation;
  playpause_text : string
}.

Definition toggle_running (d : Panel) : Panel :=
  let s := set_running (negb (running (panel_sim d))) (panel_sim d) in
  if running s then mkPanel s "Pause" else mkPanel s "Play".

(** The comparison [>=] of two numbers. *)
Variable nge : num -> num -> bool.

(** The literal [0.03]: the number nearest to 3/100. *)
Definition dt_cap : num := ndiv (of_int 3) (of_int 100).

(** The time step of a frame that took [ms] milliseconds:
    [clock.tick(120)/1000.0], capped. *)
Definition frame_dt (ms : Z) : num :=
  let dt := ndiv (of_int ms) (of_int 1000) in
  if nge dt dt_cap then dt_cap else dt.

(** The simulation part of one pass of the main loop. *)
Definition frame (ms : Z) : M unit :=
  let dt := frame_dt ms in
  let! r := gets running in
  if r then step_sieuler G dt else ret tt.

(** One [pygame.draw.circle] call: colour, centre and radius. *)
Record circle := mkCircle {
  c_color : Z * Z * Z;
  c_x : num;
  c_y : num;
  c_radius : num
}.

(** The body of the drawing loop for the body [b] at index [i]. *)
Definition draw_body (WIDTH HEIGHT : Z) (ms : list num) (i : Z) (b : Body)
  : outcome circle :=
  let xyz := vadd (sdiv_r (smul_r (pos b) (of_int HEIGHT)) (of_int 3))
                  (Vec (ndiv (of_int WIDTH) (of_int 2))
                       (ndiv (of_int HEIGHT) (of_int 2))
                       (of_int 0)) in
  match py_getitem ms i with
  | Raise e => Raise e
  | Ok m =>
      if nis_zero (nadd m (of_int 20)) then Raise ZeroDivisionError
      else
        let radius := ndiv (nadd (nmul (of_int 16) m) (of_int 80))
                           (nadd m (of_int 20)) in
        match py_getitem COLORS i with
        | Raise e => Raise e
        | Ok c => Ok (mkCircle c (vx xyz) (vy xyz) radius)
        end
  end.

(** The drawing loop over [enumerate(sim.bodies)], from index [i] on;
    [screen] holds the circles drawn so far, which stay when a later body
    raises. *)
Fixpoint render_loop (WIDTH HEIGHT : Z) (ms : list num) (i : Z)
    (bs : list Body) (screen : list circle) : outcome unit * list circle :=
  match bs with
  | [] => (Ok tt, screen)
  | b :: bs' =>
      match draw_body WIDTH HEIGHT ms i b with
      | Ok c => render_loop WIDTH HEIGHT ms (i + 1) bs' (screen ++ [c])
      | Raise e => (Raise e, screen)
      end
  end.

(** The drawing of one frame on the freshly filled screen. *)
Definition render (WIDTH HEIGHT : Z) (s : Simulation)
  : outcome unit * list circle :=
  render_loop WIDTH HEIGHT (masses s) 0 (bodies s) [].

(** *** Statements *)

(** The circle drawn for a body [b] of mass [m] in colour [c]: centre
    [pos * HEIGHT/3 + [WIDTH/2, HEIGHT/2, 0]], radius
    [(16*m + 80)/(m + 20)]. *)
Definition circle_for (WIDTH HEIGHT : Z) (c : Z * Z * Z) (m : num) (b : Body)
  : circle :=
  mkCircle c
    (nadd (ndiv (nmul (vx (pos b)) (of_int HEIGHT)) (of_int 3))
          (ndiv (of_int WIDTH) (of_int 2)))
    (nadd (ndiv (nmul (vy (pos b)) (of_int HEIGHT)) (of_int 3))
          (ndiv (of_int HEIGHT) (of_int 2)))
    (ndiv (nadd (nmul (of_int 16) m) (of_int 80)) (nadd m (of_int 20))).

(** No mass makes the divisor [m + 20] of the radius zero. *)
Definition radius_defined (ms : list num) : Prop :=
  Forall (fun m => nis_zero (nadd m (of_int 20)) = false) ms.

(** A computation that raises nothing but [IndexError]. *)
Definition index_error_only {B} (m : M B) : Prop :=
  forall s e s', m s = (Raise e, s') -> e = IndexError.

(** Every body moved by the same vector. *)
Definition translate (c : vec) (s : Simulation) : Simulation :=
  set_bodies (map (fun b => mkBody (vadd (pos b) c) (vel b)) (bodies s)) s.

End Rest.

Arguments mkPanel {A} panel_sim playpause_text.
Arguments mkCircle {A} c_color c_x c_y c_radius.

Section RealClosedFormsRest.
Variable rnd : R -> R.
Variable s : @Simulation (R_arith rnd).

Local Abbreviation len := (length (bodies s)).
Local Abbreviation m i := (mass_at s i : R).
Local Abbreviation p i := (pos (body_at s i)).
Local Abbreviation v i := (vel (body_at s i)).

(** [sum_i m_i v_i] *)
Definition momentum : @vec (R_arith rnd) :=
  @Vec (R_arith rnd)
       (Rsum (seq 0 len) (fun i => m i * vx (v i))%R)
       (Rsum (seq 0 len) (fun i => m i * vy (v i))%R)
       (Rsum (seq 0 len) (fun i => m i * vz (v i))%R).

(** The third coordinate of [sum_i m_i (p_i - r_p) x (v_i - r_v)]. *)
Definition angular_z (rf : @Body (R_arith rnd)) : R :=
  Rsum (seq 0 len)
       (fun i => m i * ((vx (p i) - vx (pos rf)) * (vy (v i) - vy (vel rf))
                        - (vy (p i) - vy (pos rf)) * (vx (v i) - vx (vel rf))))%R.

End RealClosedFormsRest.

(** [>=] in binary64 and over the reals. *)
Definition B64_ge (x y : spec_float) : bool := SFleb y x.
Definition R_ge (x y : R) : bool := if Rle_dec y x then true else false.

(** Objects for the runs below. *)
Module Stage.
Import B64.

(** The start-up scene with two more bodies. *)
Definition crowd : @Simulation arith :=
  let s4 := snd (add_body (A:=arith) (of_Z 1) (ints 0 2 0) (ints 0 0 0) scene) in
  snd (add_body (A:=arith) (of_Z 1) (ints 0 (-2) 0) (ints 0 0 0) s4).

(** One mass, two bodies: [n] is 1. *)
Definition short_masses : @Simulation arith :=
  __init__ (A:=arith) [of_Z 1]
           [mkBody (ints 0 0 0) (ints 0 0 0); mkBody (ints 1 0 0) (ints 0 1 0)].

(** Two masses, one body: [n] is 2. *)
Definition short_bodies : @Simulation arith :=
  __init__ (A:=arith) [of_Z 1; of_Z 1] [mkBody (ints 0 0 0) (ints 0 0 0)].

End Stage.

(** * Properties *)

(** ** Lists and ranges *)

Lemma py_range_nat (a b : nat) :
  py_range (Z.of_nat a) (Z.of_nat b) = map Z.of_nat (seq a (b - a)).
Proof.
  unfold py_range.
  replace (Z.to_nat (Z.of_nat b - Z.of_nat a)) with (b - a)%nat by lia.
  generalize (b - a)%nat; intros m.
  assert (seq a m = map (Nat.add a) (seq 0 m)) as ->.
  { transitivity (seq (a + 0) m); [f_equal; lia | symmetry; apply fmap_add_seq]. }
  rewrite map_map. apply map_ext. intros k. lia.
Qed.

Lemma py_index_front (len : nat) (k : nat) :
  (k < len)%nat -> py_index len (Z.of_nat k) = Some k.
Proof.
  intros Hk. unfold py_index.
  destruct (Z.leb_spec 0 (Z.of_nat k)); [|lia].
  destruct (Z.ltb_spec (Z.of_nat k) (Z.of_nat len)); [|lia].
  simpl. f_equal. lia.
Qed.

Lemma py_index_out (len : nat) (i : Z) :
  i < - Z.of_nat len \/ Z.of_nat len <= i -> py_index len i = None.
Proof.
  intros Hi. unfold py_index.
  destruct (Z.leb_spec 0 i), (Z.ltb_spec i (Z.of_nat len)),
    (Z.ltb_spec i 0), (Z.leb_spec (- Z.of_nat len) i); simpl; try reflexivity; lia.
Qed.

Lemma py_index_some (len : nat) (i : Z) (k : nat) :
  py_index len i = Some k -> (k < len)%nat.
Proof.
  unfold py_index.
  destruct (Z.leb_spec 0 i), (Z.ltb_spec i (Z.of_nat len)),
    (Z.ltb_spec i 0), (Z.leb_spec (- Z.of_nat len) i); simpl;
    intros [= <-]; lia.
Qed.

(** ** The monad *)

Section MonadFacts.
Context {A : Arith}.

Lemma bind_ok {B C} (m : M B) (k : B -> M C) s b s' :
  m s = (Ok b, s') -> bind m k s = k b s'.
Proof. intros H. unfold bind. rewrite H. reflexivity. Qed.

Lemma bind_raise {B C} (m : M B) (k : B -> M C) s e s' :
  m s = (Raise e, s') -> bind m k s = (Raise e, s').
Proof. intros H. unfold bind. rewrite H. reflexivity. Qed.

Lemma foldM_ok {B C} (f : C -> B -> M C) (g : C -> B -> C) (l : list B) s :
  (forall acc x, In x l -> f acc x s = (Ok (g acc x), s)) ->
  forall acc, foldM f l acc s = (Ok (fold_left g l acc), s).
Proof.
  induction l as [|x l IH]; intros Hf acc; simpl.
  - reflexivity.
  - rewrite (bind_ok _ _ _ _ _ (Hf acc x (or_introl eq_refl))).
    apply IH. intros acc' y Hy. apply Hf. right. exact Hy.
Qed.

Lemma mapM_ok {B C} (f : B -> M C) (g : B -> C) (l : list B) s :
  (forall x, In x l -> f x s = (Ok (g x), s)) ->
  mapM f l s = (Ok (map g l), s).
Proof.
  induction l as [|x l IH]; intros Hf; simpl.
  - reflexivity.
  - rewrite (bind_ok _ _ _ _ _ (Hf x (or_introl eq_refl))).
    rewrite (bind_ok _ _ _ _ _ (IH (fun y Hy => Hf y (or_intror Hy)))).
    reflexivity.
Qed.

Lemma getitem_nat {B} (l : list B) (k : nat) (d : B) s :
  (k < length l)%nat -> getitem l (Z.of_nat k) s = (Ok (nth k l d), s).
Proof.
  intros Hk. unfold getitem. rewrite py_index_front by exact Hk.
  destruct (lookup_lt_is_Some_2 l k Hk) as [x Hx].
  rewrite Hx. erewrite nth_lookup_Some by exact Hx. reflexivity.
Qed.

(** *** Read-only computations *)

Lemma read_only_ret {B} (b : B) : read_only (ret b).
Proof. intros s. reflexivity. Qed.

Lemma read_only_raise {B} e : read_only (@raise A B e).
Proof. intros s. reflexivity. Qed.

Lemma read_only_gets {B} (f : Simulation -> B) : read_only (gets f).
Proof. intros s. reflexivity. Qed.

Lemma read_only_bind {B C} (m : M B) (k : B -> M C) :
  read_only m -> (forall b, read_only (k b)) -> read_only (bind m k).
Proof.
  intros Hm Hk s. unfold bind. specialize (Hm s).
  destruct (m s) as [[b|e] s']; simpl in Hm; subst s'.
  - apply Hk.
  - reflexivity.
Qed.

Lemma read_only_foldM {B C} (f : C -> B -> M C) (l : list B) :
  (forall acc x, read_only (f acc x)) -> forall acc, read_only (foldM f l acc).
Proof.
  intros Hf. induction l as [|x l IH]; intros acc; simpl.
  - apply read_only_ret.
  - apply read_only_bind; [apply Hf | exact IH].
Qed.

Lemma read_only_mapM {B C} (f : B -> M C) (l : list B) :
  (forall x, read_only (f x)) -> read_only (mapM f l).
Proof.
  intros Hf. induction l as [|x l IH]; simpl.
  - apply read_only_ret.
  - apply read_only_bind; [apply Hf|]. intros y.
    apply read_only_bind; [exact IH|]. intros ys. apply read_only_ret.
Qed.

Lemma read_only_getitem {B} (l : list B) i : read_only (getitem l i).
Proof.
  unfold getitem. destruct (py_index _ _) as [k|]; [|apply read_only_raise].
  destruct (l !! k); [apply read_only_ret | apply read_only_raise].
Qed.

End MonadFacts.

(** ** The acceleration evaluator and the integrators, for every arithmetic *)

Section ModelFacts.
Context {A : Arith}.
Variable G : num.

Lemma fold_left_of_nat {C} (g : C -> Z -> C) (l : list nat) (acc : C) :
  fold_left g (map Z.of_nat l) acc = fold_left (fun a k => g a (Z.of_nat k)) l acc.
Proof.
  revert acc. induction l as [|k l IH]; intros acc; simpl; [reflexivity | apply IH].
Qed.

Lemma fold_left_ext_in {B C} (f g : C -> B -> C) (l : list B) (acc : C) :
  (forall a x, In x l -> f a x = g a x) -> fold_left f l acc = fold_left g l acc.
Proof.
  revert acc. induction l as [|x l IH]; intros acc H; simpl; [reflexivity|].
  rewrite H by (left; reflexivity). apply IH. intros a y Hy. apply H. right. exact Hy.
Qed.

Lemma range_n (s : Simulation) :
  consistent s -> py_range 0 (n s) = map Z.of_nat (seq 0 (length (bodies s))).
Proof.
  intros [Hn Hlen]. rewrite Hn, <- Hlen. change 0 with (Z.of_nat 0).
  rewrite py_range_nat, Nat.sub_0_r. reflexivity.
Qed.

Lemma body_lookup (s : Simulation) (i : nat) :
  (i < length (bodies s))%nat ->
  getitem (bodies s) (Z.of_nat i) s = (Ok (body_at s i), s).
Proof. intros Hi. apply getitem_nat. exact Hi. Qed.

Lemma mass_lookup (s : Simulation) (i : nat) :
  (i < length (masses s))%nat ->
  getitem (masses s) (Z.of_nat i) s = (Ok (mass_at s i), s).
Proof. intros Hi. apply getitem_nat. exact Hi. Qed.

(** [dv_dt] on a consistent object: whatever [body] is passed, the result
    is the pull on the stored position of body [i]. *)
Lemma dv_dt_ok (s : Simulation) (i : nat) (body : option Body) :
  consistent s -> (i < length (bodies s))%nat ->
  dv_dt G (Z.of_nat i) body s = (Ok (accel G s i (pos (body_at s i))), s).
Proof.
  intros Hc Hi. pose proof Hc as [Hn Hlen]. unfold dv_dt.
  rewrite (bind_ok _ _ s (match body with Some b => b | None => body_at s i end) s).
  2:{ destruct body; [reflexivity|].
      rewrite (bind_ok _ _ s (bodies s) s) by reflexivity.
      apply body_lookup. exact Hi. }
  rewrite (bind_ok _ _ s (n s) s) by reflexivity.
  rewrite range_n by exact Hc.
  rewrite (foldM_ok _
    (fun F j => if Nat.eqb i (Z.to_nat j) then F
                else vadd F (pull G (mass_at s (Z.to_nat j))
                                  (vsub (pos (body_at s (Z.to_nat j)))
                                        (pos (body_at s i)))))).
  - rewrite fold_left_of_nat. unfold accel. do 2 f_equal.
    apply fold_left_ext_in. intros F j _. rewrite Nat2Z.id. reflexivity.
  - intros F x Hx. apply in_map_iff in Hx as (j & <- & Hj).
    apply in_seq in Hj. rewrite Nat2Z.id.
    destruct (Z.eqb_spec (Z.of_nat i) (Z.of_nat j)), (Nat.eqb_spec i j);
      try lia; [reflexivity|].
    rewrite (bind_ok _ _ s (bodies s) s) by reflexivity.
    rewrite (bind_ok _ _ _ _ _ (body_lookup s j ltac:(lia))).
    rewrite (bind_ok _ _ _ _ _ (body_lookup s i Hi)).
    rewrite (bind_ok _ _ s (masses s) s) by reflexivity.
    rewrite (bind_ok _ _ _ _ _ (mass_lookup s j ltac:(lia))).
    reflexivity.
Qed.

Lemma ode_ok (s : Simulation) (i : nat) :
  consistent s -> (i < length (bodies s))%nat ->
  ode G (Z.of_nat i) None s
  = (Ok (mkBody (vel (body_at s i)) (accel G s i (pos (body_at s i)))), s).
Proof.
  intros Hc Hi. unfold ode.
  rewrite (bind_ok _ _ s (body_at s i) s).
  2:{ rewrite (bind_ok _ _ s (bodies s) s) by reflexivity.
      apply body_lookup. exact Hi. }
  rewrite (bind_ok _ _ _ _ _ (dv_dt_ok s i _ Hc Hi)). reflexivity.
Qed.

Lemma read_only_dv_dt i body : read_only (dv_dt G i body).
Proof.
  unfold dv_dt. apply read_only_bind.
  { destruct body; [apply read_only_ret|].
    apply read_only_bind; [apply read_only_gets|]. intros bs. apply read_only_getitem. }
  intros b. apply read_only_bind; [apply read_only_gets|]. intros cnt.
  apply read_only_foldM. intros F j.
  destruct (i =? j); [apply read_only_ret|].
  repeat (first [ apply read_only_ret | apply read_only_gets
                | apply read_only_getitem
                | apply read_only_bind; [|intros ?] ]).
Qed.

Lemma read_only_ode i body : read_only (ode G i body).
Proof.
  unfold ode. apply read_only_bind.
  { destruct body; [apply read_only_ret|].
    apply read_only_bind; [apply read_only_gets|]. intros bs. apply read_only_getitem. }
  intros b. apply read_only_bind; [apply read_only_dv_dt|]. intros a.
  apply read_only_ret.
Qed.

Lemma commit_cases (dt : num) (m : M (list Body)) (s : Simulation) :
  read_only m ->
  (exists e, m s = (Raise e, s) /\ commit dt m s = (Raise e, s)) \/
  (exists new, m s = (Ok new, s) /\
               commit dt m s = (Ok tt, set_t (nadd (t s) dt) (set_bodies new s))).
Proof.
  intros Hm. specialize (Hm s). unfold commit, bind.
  destruct (m s) as [[new|e] s']; simpl in Hm; subst s'.
  - right. exists new. split; reflexivity.
  - left. exists e. split; reflexivity.
Qed.

Lemma step_euler_unfold dt s :
  step_euler G dt s = commit dt (mapM (euler_slots G dt) (py_range 0 (n s))) s.
Proof. reflexivity. Qed.

Lemma step_sieuler_unfold dt s :
  step_sieuler G dt s = commit dt (mapM (sieuler_slots G dt) (py_range 0 (n s))) s.
Proof. reflexivity. Qed.

Lemma read_only_euler_slots dt i : read_only (euler_slots G dt i).
Proof.
  unfold euler_slots.
  repeat (first [ apply read_only_ret | apply read_only_gets
                | apply read_only_getitem | apply read_only_ode
                | apply read_only_bind; [|intros ?] ]).
Qed.

Lemma read_only_sieuler_slots dt i : read_only (sieuler_slots G dt i).
Proof.
  unfold sieuler_slots.
  repeat (first [ apply read_only_ret | apply read_only_gets
                | apply read_only_getitem | apply read_only_ode
                | apply read_only_bind; [|intros ?] ]).
Qed.

Lemma euler_slots_ok dt s i :
  consistent s -> (i < length (bodies s))%nat ->
  euler_slots G dt (Z.of_nat i) s
  = (Ok (euler_slot dt (body_at s i) (accel G s i (pos (body_at s i)))), s).
Proof.
  intros Hc Hi. unfold euler_slots.
  rewrite (bind_ok _ _ s (bodies s) s) by reflexivity.
  rewrite (bind_ok _ _ _ _ _ (body_lookup s i Hi)).
  rewrite (bind_ok _ _ _ _ _ (ode_ok s i Hc Hi)). reflexivity.
Qed.

Lemma sieuler_slots_ok dt s i :
  consistent s -> (i < length (bodies s))%nat ->
  sieuler_slots G dt (Z.of_nat i) s
  = (Ok (sieuler_slot dt (body_at s i) (accel G s i (pos (body_at s i)))), s).
Proof.
  intros Hc Hi. unfold sieuler_slots.
  rewrite (bind_ok _ _ s (bodies s) s) by reflexivity.
  rewrite (bind_ok _ _ _ _ _ (body_lookup s i Hi)).
  rewrite (bind_ok _ _ _ _ _ (ode_ok s i Hc Hi)).
  rewrite (bind_ok _ _ _ _ _ (ode_ok s i Hc Hi)). reflexivity.
Qed.

Lemma slots_lookup {C} (f : nat -> C) (len i : nat) :
  (i < len)%nat -> map f (seq 0 len) !! i = Some (f i).
Proof.
  intros Hi. change (map f (seq 0 len)) with (f <$> seq 0 len).
  rewrite list_lookup_fmap, lookup_seq_lt by exact Hi. reflexivity.
Qed.

Lemma mapM_slots_ok (f : Z -> M Body) (g : nat -> Body) (s : Simulation) :
  consistent s ->
  (forall i, (i < length (bodies s))%nat -> f (Z.of_nat i) s = (Ok (g i), s)) ->
  mapM f (py_range 0 (n s)) s = (Ok (map g (seq 0 (length (bodies s)))), s).
Proof.
  intros Hc Hf. rewrite range_n by exact Hc.
  rewrite (mapM_ok f (fun z => g (Z.to_nat z))).
  - rewrite map_map. do 2 f_equal. apply map_ext. intros i.
    rewrite Nat2Z.id. reflexivity.
  - intros x Hx. apply in_map_iff in Hx as (i & <- & Hi). apply in_seq in Hi.
    rewrite Nat2Z.id. apply Hf. lia.
Qed.

Lemma step_euler_ok (s : Simulation) (dt : num) :
  consistent s ->
  step_euler G dt s
  = (Ok tt,
     set_t (nadd (t s) dt)
       (set_bodies
          (map (fun i => euler_slot dt (body_at s i) (accel G s i (pos (body_at s i))))
               (seq 0 (length (bodies s)))) s)).
Proof.
  intros Hc. rewrite step_euler_unfold. unfold commit.
  erewrite bind_ok; [reflexivity|].
  apply mapM_slots_ok; [exact Hc|]. intros i Hi. apply euler_slots_ok; assumption.
Qed.

Lemma step_sieuler_ok (s : Simulation) (dt : num) :
  consistent s ->
  step_sieuler G dt s
  = (Ok tt,
     set_t (nadd (t s) dt)
       (set_bodies
          (map (fun i => sieuler_slot dt (body_at s i) (accel G s i (pos (body_at s i))))
               (seq 0 (length (bodies s)))) s)).
Proof.
  intros Hc. rewrite step_sieuler_unfold. unfold commit.
  erewrite bind_ok; [reflexivity|].
  apply mapM_slots_ok; [exact Hc|]. intros i Hi. apply sieuler_slots_ok; assumption.
Qed.

(** A step that raises has written nothing. *)
Lemma step_euler_raise (s s' : Simulation) (dt : num) (e : exn) :
  step_euler G dt s = (Raise e, s') -> s' = s.
Proof.
  rewrite step_euler_unfold.
  destruct (commit_cases dt (mapM (euler_slots G dt) (py_range 0 (n s))) s)
    as [(e' & _ & ->) | (new & _ & ->)].
  - apply read_only_mapM. intros i. apply read_only_euler_slots.
  - intros [= _ <-]. reflexivity.
  - discriminate.
Qed.

Lemma step_sieuler_raise (s s' : Simulation) (dt : num) (e : exn) :
  step_sieuler G dt s = (Raise e, s') -> s' = s.
Proof.
  rewrite step_sieuler_unfold.
  destruct (commit_cases dt (mapM (sieuler_slots G dt) (py_range 0 (n s))) s)
    as [(e' & _ & ->) | (new & _ & ->)].
  - apply read_only_mapM. intros i. apply read_only_sieuler_slots.
  - intros [= _ <-]. reflexivity.
  - discriminate.
Qed.

Lemma commit_frame (dt : num) (m : M (list Body)) (s : Simulation) :
  read_only m ->
  masses (snd (commit dt m s)) = masses s /\
  n (snd (commit dt m s)) = n s /\
  running (snd (commit dt m s)) = running s.
Proof.
  intros Hm.
  destruct (commit_cases dt m s Hm) as [(e & _ & ->) | (new & _ & ->)];
    repeat split; reflexivity.
Qed.

Lemma length_map_seq {C} (f : nat -> C) (len : nat) :
  length (map f (seq 0 len)) = len.
Proof. rewrite length_map, length_seq. reflexivity. Qed.

(** Replacing [bodies] by a list of the same length and advancing [t]
    keeps the lock-step invariant. *)
Lemma commit_consistent (s : Simulation) (new : list Body) (x : num) :
  consistent s -> length new = length (bodies s) ->
  consistent (set_t x (set_bodies new s)).
Proof.
  intros [Hn Hlen] Hnew. split; simpl; [exact Hn | rewrite Hnew; exact Hlen].
Qed.

(** C5.  [step_euler(dt)] on a consistent object returns normally; the
    new state of every body [i] is its old state plus [dt] times
    [(velocity_i, acceleration_i)], the acceleration being what [dv_dt(i)]
    returns on the object as it was before the step (products are taken
    in the program's operand order, [x * dt]); the new list replaces
    [bodies] in one assignment, [t] becomes [t + dt] and the object is
    consistent again.  On any object, a step that raises has assigned
    nothing. *)
Theorem step_euler_snapshot
    (s : Simulation) (dt : num) (o : outcome unit) (s' : Simulation) :
  step_euler G dt s = (o, s') ->
  (forall e, o = Raise e -> s' = s) /\
  (consistent s ->
     o = Ok tt /\
     t s' = nadd (t s) dt /\
     length (bodies s') = length (bodies s) /\
     consistent s' /\
     forall i b, bodies s !! i = Some b ->
       exists a, dv_dt G (Z.of_nat i) None s = (Ok a, s) /\
                 bodies s' !! i = Some (euler_slot dt b a)).
Proof.
  intros Hrun. split.
  - intros e ->. eapply step_euler_raise. exact Hrun.
  - intros Hc. rewrite (step_euler_ok s dt Hc) in Hrun.
    injection Hrun as <- <-. split; [reflexivity|]. split; [reflexivity|].
    split; [simpl; rewrite length_map, length_seq; reflexivity|].
    split; [apply commit_consistent; [exact Hc | apply length_map_seq]|].
    intros i b Hb. pose proof (lookup_lt_Some _ _ _ Hb) as Hi.
    exists (accel G s i (pos b)).
    assert (body_at s i = b) as Hbi by (apply nth_lookup_Some; exact Hb).
    split.
    + rewrite <- Hbi. apply dv_dt_ok; assumption.
    + simpl. rewrite slots_lookup by exact Hi. rewrite Hbi. reflexivity.
Qed.

(** C1.  [step_sieuler(dt)] on a consistent object returns normally; for
    every body, with [a] what [dv_dt(i)] returns on the object as it was
    before the step, the stored block is the single-precision round trip
    of position [(pos + vel * dt) + (a * dt) * dt] and velocity
    [vel + a * dt]; then [t] becomes [t + dt], and the object is consistent
    again.  On any object, a step that raises has assigned nothing. *)
Theorem step_sieuler_update
    (s : Simulation) (dt : num) (o : outcome unit) (s' : Simulation) :
  step_sieuler G dt s = (o, s') ->
  (forall e, o = Raise e -> s' = s) /\
  (consistent s ->
     o = Ok tt /\
     t s' = nadd (t s) dt /\
     length (bodies s') = length (bodies s) /\
     consistent s' /\
     forall i b, bodies s !! i = Some b ->
       exists a, dv_dt G (Z.of_nat i) None s = (Ok a, s) /\
                 bodies s' !! i
                 = Some (body_single
                           (mkBody (vadd (vadd (pos b) (smul_r (vel b) dt))
                                         (smul_r (smul_r a dt) dt))
                                   (vadd (vel b) (smul_r a dt))))).
Proof.
  intros Hrun. split.
  - intros e ->. eapply step_sieuler_raise. exact Hrun.
  - intros Hc. rewrite (step_sieuler_ok s dt Hc) in Hrun.
    injection Hrun as <- <-. split; [reflexivity|]. split; [reflexivity|].
    split; [simpl; rewrite length_map, length_seq; reflexivity|].
    split; [apply commit_consistent; [exact Hc | apply length_map_seq]|].
    intros i b Hb. pose proof (lookup_lt_Some _ _ _ Hb) as Hi.
    exists (accel G s i (pos b)).
    assert (body_at s i = b) as Hbi by (apply nth_lookup_Some; exact Hb).
    split.
    + rewrite <- Hbi. apply dv_dt_ok; assumption.
    + simpl. rewrite slots_lookup by exact Hi. rewrite Hbi. reflexivity.
Qed.

(** C10.  Whatever the object and [dt], and whether the step returns or
    raises, [step_euler] and [step_sieuler] leave [masses], [n] and
    [running] as they were. *)
Theorem steps_frame (s : Simulation) (dt : num) :
  (masses (snd (step_euler G dt s)) = masses s /\
   n (snd (step_euler G dt s)) = n s /\
   running (snd (step_euler G dt s)) = running s) /\
  (masses (snd (step_sieuler G dt s)) = masses s /\
   n (snd (step_sieuler G dt s)) = n s /\
   running (snd (step_sieuler G dt s)) = running s).
Proof.
  split.
  - rewrite step_euler_unfold. apply commit_frame.
    apply read_only_mapM. intros i. apply read_only_euler_slots.
  - rewrite step_sieuler_unfold. apply commit_frame.
    apply read_only_mapM. intros i. apply read_only_sieuler_slots.
Qed.

End ModelFacts.

(** ** Mutators *)

Section MutatorFacts.
Context {A : Arith}.

Lemma delete_zip {B C} (l : list B) (k : list C) (i : nat) :
  delete i (zip l k) = zip (delete i l) (delete i k).
Proof.
  revert i k. induction l as [|x l IH]; intros i k.
  - destruct i; reflexivity.
  - destruct k as [|y k].
    + destruct i; simpl; [destruct l; reflexivity | reflexivity].
    + destruct i as [|i]; simpl; [reflexivity|]. f_equal. apply IH.
Qed.

Lemma py_index_back (len : nat) (i : Z) :
  - Z.of_nat len <= i < 0 -> py_index len i = py_index len (i + Z.of_nat len).
Proof.
  intros Hi. unfold py_index.
  destruct (Z.leb_spec 0 i); [lia|].
  destruct (Z.ltb_spec i 0); [|lia].
  destruct (Z.leb_spec (- Z.of_nat len) i); [|lia].
  destruct (Z.leb_spec 0 (i + Z.of_nat len)); [|lia].
  destruct (Z.ltb_spec (i + Z.of_nat len) (Z.of_nat len)); [|lia].
  reflexivity.
Qed.

(** What a call of [set_body] does, by the index. *)
Lemma set_body_run (s : Simulation) (index : Z) (mass : num) (p v : vec) :
  set_body index mass p v s =
  match py_index (length (masses s)) index with
  | None => (Raise IndexError, s)
  | Some k =>
      match py_index (length (bodies s)) index with
      | None => (Raise IndexError, set_masses (<[k:=mass]> (masses s)) s)
      | Some k' =>
          (Ok tt, set_bodies (<[k':=mkBody p v]> (bodies s))
                    (set_masses (<[k:=mass]> (masses s)) s))
      end
  end.
Proof.
  unfold set_body, bind, gets, setitem, modify, ret, raise.
  destruct (py_index (length (masses s)) index) as [k|]; [|reflexivity].
  simpl. destruct (py_index (length (bodies s)) index) as [k'|]; reflexivity.
Qed.

(** What a call of [remove_body] does, by the index. *)
Lemma remove_body_run (s : Simulation) (index : Z) :
  remove_body index s =
  match py_index (length (masses s)) index with
  | None => (Raise IndexError, s)
  | Some k =>
      match py_index (length (bodies s)) index with
      | None => (Raise IndexError, set_masses (delete k (masses s)) s)
      | Some k' =>
          (Ok tt, set_n (n s - 1)
                    (set_bodies (delete k' (bodies s))
                       (set_masses (delete k (masses s)) s)))
      end
  end.
Proof.
  unfold remove_body, bind, gets, pop, modify, ret, raise.
  destruct (py_index (length (masses s)) index) as [k|]; [|reflexivity].
  simpl. destruct (py_index (length (bodies s)) index) as [k'|]; reflexivity.
Qed.

Lemma add_body_run (s : Simulation) (mass : num) (p v : vec) :
  add_body mass p v s
  = (Ok tt, set_n (n s + 1)
              (set_bodies (bodies s ++ [mkBody p v])
                 (set_masses (masses s ++ [mass]) s))).
Proof. reflexivity. Qed.

(** C4, as the program has it.  With the two lists in lock-step, an index
    below [-len(bodies)] or at least [len(bodies)] makes [set_body] and
    [remove_body] raise [IndexError] with the object exactly as before; an
    index in [-len(bodies) .. -1] is Python's index from the back and does
    what [index + len(bodies)] does. *)
Theorem mutators_index_range
    (s : Simulation) (index : Z) (mass : num) (p v : vec) :
  length (masses s) = length (bodies s) ->
  (index < - Z.of_nat (length (bodies s)) \/ Z.of_nat (length (bodies s)) <= index ->
     set_body index mass p v s = (Raise IndexError, s) /\
     remove_body index s = (Raise IndexError, s)) /\
  (- Z.of_nat (length (bodies s)) <= index < 0 ->
     set_body index mass p v s
     = set_body (index + Z.of_nat (length (bodies s))) mass p v s /\
     remove_body index s
     = remove_body (index + Z.of_nat (length (bodies s))) s).
Proof.
  intros Hlen. split.
  - intros Hout. rewrite set_body_run, remove_body_run, Hlen.
    rewrite (py_index_out _ _ Hout). split; reflexivity.
  - intros Hback. rewrite !set_body_run, !remove_body_run, Hlen.
    rewrite (py_index_back _ _ Hback). split; reflexivity.
Qed.

Lemma consistent_init (ms : list num) (bs : list Body) :
  length ms = length bs -> consistent (__init__ ms bs).
Proof. intros H. split; simpl; [reflexivity | symmetry; exact H]. Qed.

Lemma add_body_consistent (s s' : Simulation) (mass : num) (p v : vec) :
  consistent s -> add_body mass p v s = (Ok tt, s') ->
  consistent s' /\ paired s' = paired s ++ [(mass, mkBody p v)].
Proof.
  intros [Hn Hlen] Hrun. rewrite add_body_run in Hrun. injection Hrun as <-.
  split.
  - split; simpl; rewrite ?length_app; simpl; lia.
  - unfold paired. simpl. rewrite zip_with_app by (symmetry; exact Hlen).
    reflexivity.
Qed.

Lemma set_body_consistent (s s' : Simulation) (index : Z) (mass : num) (p v : vec) :
  consistent s -> set_body index mass p v s = (Ok tt, s') ->
  consistent s' /\
  exists k, py_index (length (bodies s)) index = Some k /\
            paired s' = <[k:=(mass, mkBody p v)]> (paired s).
Proof.
  intros [Hn Hlen] Hrun. rewrite set_body_run, <- Hlen in Hrun.
  destruct (py_index (length (bodies s)) index) as [k|]; [|discriminate].
  injection Hrun as <-. split.
  - split; simpl; rewrite !length_insert; assumption.
  - exists k. split; [reflexivity|]. unfold paired. simpl.
    symmetry. apply insert_zip_with.
Qed.

Lemma remove_body_consistent (s s' : Simulation) (index : Z) :
  consistent s -> remove_body index s = (Ok tt, s') ->
  consistent s' /\
  exists k, py_index (length (bodies s)) index = Some k /\
            paired s' = delete k (paired s).
Proof.
  intros [Hn Hlen] Hrun. rewrite remove_body_run, <- Hlen in Hrun.
  destruct (py_index (length (bodies s)) index) as [k|] eqn:Hk; [|discriminate].
  injection Hrun as <-. apply py_index_some in Hk. split.
  - split; simpl; rewrite !length_delete
      by (apply lookup_lt_is_Some; lia); lia.
  - exists k. split; [reflexivity|]. unfold paired. simpl.
    symmetry. apply delete_zip.
Qed.

(** C9, as the program has it.  [len(masses) == len(bodies) == n] holds
    after a construction from two lists of equal length, and every
    [add_body], [set_body] and [remove_body] that returns keeps it on an
    object that owns its lists; the two lists change at the same
    index: the pair list gains the new pair at its end, has the pair at
    the addressed index replaced, or loses the pair at that index. *)
Theorem lock_step_invariant :
  (forall (ms : list num) (bs : list Body),
      length ms = length bs -> consistent (__init__ ms bs)) /\
  (forall s : Simulation, consistent s ->
     (forall mass p v s', add_body mass p v s = (Ok tt, s') ->
        consistent s' /\ paired s' = paired s ++ [(mass, mkBody p v)]) /\
     (forall index mass p v s', set_body index mass p v s = (Ok tt, s') ->
        consistent s' /\
        exists k, py_index (length (bodies s)) index = Some k /\
                  paired s' = <[k:=(mass, mkBody p v)]> (paired s)) /\
     (forall index s', remove_body index s = (Ok tt, s') ->
        consistent s' /\
        exists k, py_index (length (bodies s)) index = Some k /\
                  paired s' = delete k (paired s))).
Proof.
  split; [exact consistent_init|]. intros s Hc. split; [|split].
  - intros mass p v s'. apply add_body_consistent. exact Hc.
  - intros index mass p v s'. apply set_body_consistent. exact Hc.
  - intros index s'. apply remove_body_consistent. exact Hc.
Qed.

End MutatorFacts.

(** ** Diagnostics, for every arithmetic *)

Section DiagnosticFacts.
Context {A : Arith}.
Variable G : num.

Lemma energy_ok (s : Simulation) :
  consistent s -> energy G s = (Ok (energy_acc G s), s).
Proof.
  intros Hc. pose proof Hc as [Hn Hlen]. unfold energy.
  rewrite (bind_ok _ _ s (n s) s) by reflexivity.
  rewrite range_n by exact Hc.
  set (len := length (bodies s)).
  set (inner := fun (i : nat) (e : num) (j : nat) =>
                  nsub e (ndiv (nmul (nmul G (mass_at s i)) (mass_at s j))
                               (norm (vsub (pos (body_at s j)) (pos (body_at s i)))))).
  set (outer := fun (e : num) (i : nat) =>
                  fold_left (inner i) (seq (S i) (len - S i))
                    (nadd e (ndiv (nmul (mass_at s i) (npow (norm (vel (body_at s i))) 2))
                                  (of_int 2)))).
  rewrite (foldM_ok _ (fun e z => outer e (Z.to_nat z))).
  - rewrite fold_left_of_nat. unfold energy_acc. fold len. do 2 f_equal.
    apply fold_left_ext_in. intros e i _. rewrite Nat2Z.id. reflexivity.
  - intros e x Hx. apply in_map_iff in Hx as (i & <- & Hi).
    apply in_seq in Hi. rewrite Nat2Z.id. fold len in Hi.
    rewrite (bind_ok _ _ s (masses s) s) by reflexivity.
    rewrite (bind_ok _ _ _ _ _ (mass_lookup s i ltac:(lia))).
    rewrite (bind_ok _ _ s (bodies s) s) by reflexivity.
    rewrite (bind_ok _ _ _ _ _ (body_lookup s i ltac:(lia))).
    rewrite Hn, <- Hlen. fold len.
    replace (Z.of_nat i + 1) with (Z.of_nat (S i)) by lia.
    rewrite py_range_nat.
    rewrite (foldM_ok _ (fun e z => inner i e (Z.to_nat z))).
    + rewrite fold_left_of_nat. unfold outer. do 2 f_equal.
      apply fold_left_ext_in. intros e' j _. rewrite Nat2Z.id. reflexivity.
    + intros e' y Hy. apply in_map_iff in Hy as (j & <- & Hj).
      apply in_seq in Hj. rewrite Nat2Z.id.
      rewrite (bind_ok _ _ s (masses s) s) by reflexivity.
      rewrite (bind_ok _ _ _ _ _ (mass_lookup s i ltac:(lia))).
      rewrite (bind_ok _ _ _ _ _ (mass_lookup s j ltac:(lia))).
      rewrite (bind_ok _ _ s (bodies s) s) by reflexivity.
      rewrite (bind_ok _ _ _ _ _ (body_lookup s j ltac:(lia))).
      rewrite (bind_ok _ _ _ _ _ (body_lookup s i ltac:(lia))).
      reflexivity.
Qed.

Lemma read_only_energy : read_only (energy G).
Proof.
  unfold energy. apply read_only_bind; [apply read_only_gets|]. intros amt.
  apply read_only_foldM. intros e i.
  do 4 (apply read_only_bind;
        [first [apply read_only_gets | apply read_only_getitem] | intros ?]).
  apply read_only_foldM. intros e' j.
  repeat (first [ apply read_only_ret | apply read_only_gets
                | apply read_only_getitem
                | apply read_only_bind; [|intros ?] ]).
Qed.

Lemma weighted_sum_ok (row : Body -> vec) (s : Simulation) :
  consistent s ->
  foldM (fun acc i =>
           bind (gets masses) (fun ms =>
           bind (getitem ms i) (fun mi =>
           bind (gets bodies) (fun bs =>
           bind (getitem bs i) (fun bi =>
           ret (py_add acc (smul_l mi (row bi))))))))
        (py_range 0 (n s)) (PyNum (of_int 0)) s
  = (Ok (weighted_sum row s), s).
Proof.
  intros Hc. pose proof Hc as [Hn Hlen]. rewrite range_n by exact Hc.
  rewrite (foldM_ok _ (fun acc z =>
             py_add acc (smul_l (mass_at s (Z.to_nat z))
                                (row (body_at s (Z.to_nat z)))))).
  - rewrite fold_left_of_nat. unfold weighted_sum. do 2 f_equal.
    apply fold_left_ext_in. intros acc i _. rewrite Nat2Z.id. reflexivity.
  - intros acc x Hx. apply in_map_iff in Hx as (i & <- & Hi).
    apply in_seq in Hi. rewrite Nat2Z.id.
    rewrite (bind_ok _ _ s (masses s) s) by reflexivity.
    rewrite (bind_ok _ _ _ _ _ (mass_lookup s i ltac:(lia))).
    rewrite (bind_ok _ _ s (bodies s) s) by reflexivity.
    rewrite (bind_ok _ _ _ _ _ (body_lookup s i ltac:(lia))).
    reflexivity.
Qed.

Lemma center_of_mass_run (s : Simulation) :
  consistent s ->
  center_of_mass s = py_truediv (weighted_sum pos s) (sum_masses (masses s)) s.
Proof.
  intros Hc. unfold center_of_mass.
  rewrite (bind_ok _ _ s (n s) s) by reflexivity.
  rewrite (bind_ok _ _ _ _ _ (weighted_sum_ok pos s Hc)).
  reflexivity.
Qed.

Lemma linear_momentum_ok (s : Simulation) :
  consistent s -> linear_momentum s = (Ok (weighted_sum vel s), s).
Proof.
  intros Hc. unfold linear_momentum.
  rewrite (bind_ok _ _ s (n s) s) by reflexivity.
  apply weighted_sum_ok. exact Hc.
Qed.

(** Once something has been added, the accumulator of [sum] is an array. *)
Lemma py_add_fold_arr (f : nat -> vec) (l : list nat) (u : vec) :
  exists w, fold_left (fun acc i => py_add acc (f i)) l (PyArr u) = PyArr w.
Proof.
  revert u. induction l as [|i l IH]; intros u; simpl.
  - exists u. reflexivity.
  - apply IH.
Qed.

Lemma weighted_sum_empty (row : Body -> vec) (s : Simulation) :
  bodies s = [] -> weighted_sum row s = PyNum (of_int 0).
Proof. intros H. unfold weighted_sum. rewrite H. reflexivity. Qed.

Lemma weighted_sum_arr (row : Body -> vec) (s : Simulation) :
  bodies s <> [] -> exists w, weighted_sum row s = PyArr w.
Proof.
  intros H. unfold weighted_sum.
  destruct (bodies s) as [|b bs]; [contradiction|].
  simpl length. rewrite <- cons_seq. simpl. apply py_add_fold_arr.
Qed.

Lemma center_of_mass_empty (s : Simulation) :
  consistent s -> n s = 0 ->
  center_of_mass s = (Raise ZeroDivisionError, s).
Proof.
  intros Hc H0. pose proof Hc as [Hn Hlen].
  rewrite center_of_mass_run by exact Hc.
  assert (masses s = []) as Hms by (apply length_zero_iff_nil; lia).
  assert (bodies s = []) as Hbs by (apply length_zero_iff_nil; lia).
  rewrite (weighted_sum_empty pos s Hbs), Hms.
  unfold py_truediv, sum_masses. cbn [fold_left].
  rewrite nis_zero_0. reflexivity.
Qed.

Lemma center_of_mass_nonempty (s : Simulation) :
  consistent s -> 0 < n s ->
  exists w, weighted_sum pos s = PyArr w /\
            center_of_mass s
            = (Ok (PyArr (sdiv_r w (sum_masses (masses s)))), s).
Proof.
  intros Hc Hpos. pose proof Hc as [Hn Hlen].
  assert (bodies s <> []) as Hne.
  { intros Hnil. rewrite Hnil in Hlen. rewrite <- Hlen in Hn. simpl in Hn. lia. }
  destruct (weighted_sum_arr pos s Hne) as [w Hw]. exists w.
  split; [exact Hw|]. rewrite center_of_mass_run by exact Hc. rewrite Hw.
  reflexivity.
Qed.

End DiagnosticFacts.

(** ** Exact real arithmetic *)

Section RsumFacts.
Local Open Scope R_scope.

Lemma Rsum_ext_in (l : list nat) (f g : nat -> R) :
  (forall i, In i l -> f i = g i) -> Rsum l f = Rsum l g.
Proof.
  induction l as [|a l IH]; intros H; simpl; [reflexivity|].
  rewrite (H a) by (left; reflexivity). f_equal. apply IH.
  intros i Hi. apply H. right. exact Hi.
Qed.

Lemma Rsum_zero (l : list nat) : Rsum l (fun _ => 0) = 0.
Proof. induction l as [|a l IH]; simpl; [reflexivity | rewrite IH; lra]. Qed.

Lemma Rsum_plus (l : list nat) (f g : nat -> R) :
  Rsum l (fun i => f i + g i) = Rsum l f + Rsum l g.
Proof. induction l as [|a l IH]; simpl; [lra | rewrite IH; lra]. Qed.

Lemma Rsum_opp (l : list nat) (f : nat -> R) :
  Rsum l (fun i => - f i) = - Rsum l f.
Proof. induction l as [|a l IH]; simpl; [lra | rewrite IH; lra]. Qed.

Lemma Rsum_scal (l : list nat) (c : R) (f : nat -> R) :
  Rsum l (fun i => c * f i) = c * Rsum l f.
Proof. induction l as [|a l IH]; simpl; [lra | rewrite IH; lra]. Qed.

Lemma Rsum_swap (l k : list nat) (F : nat -> nat -> R) :
  Rsum l (fun i => Rsum k (fun j => F i j))
  = Rsum k (fun j => Rsum l (fun i => F i j)).
Proof.
  induction l as [|a l IH]; simpl.
  - symmetry. apply Rsum_zero.
  - rewrite IH. symmetry. apply Rsum_plus.
Qed.

(** A double sum of an antisymmetric family vanishes. *)
Lemma Rsum_antisym (l : list nat) (F : nat -> nat -> R) :
  (forall i j, F i j = - F j i) ->
  Rsum l (fun i => Rsum l (fun j => F i j)) = 0.
Proof.
  intros Hanti.
  assert (Rsum l (fun i => Rsum l (fun j => F i j))
          = - Rsum l (fun i => Rsum l (fun j => F i j))) as H.
  { rewrite Rsum_swap at 1. rewrite <- Rsum_opp. apply Rsum_ext_in.
    intros j _. rewrite <- Rsum_opp. apply Rsum_ext_in. intros i _.
    apply Hanti. }
  lra.
Qed.

Lemma Rsum_map_S (l : list nat) (f : nat -> R) :
  Rsum (map S l) f = Rsum l (fun i => f (S i)).
Proof. induction l as [|a l IH]; simpl; [reflexivity | rewrite IH; reflexivity]. Qed.

Lemma fold_left_Rplus (l : list R) (a : R) :
  fold_left Rplus l a = a + Rsum (seq 0 (length l)) (fun i => nth i l 0).
Proof.
  revert a. induction l as [|x l IH]; intros a; simpl.
  - lra.
  - rewrite IH, <- seq_shift, Rsum_map_S. lra.
Qed.

Lemma fold_left_Rminus (l : list nat) (u : nat -> R) (e : R) :
  fold_left (fun e j => e - u j) l e = e - Rsum l u.
Proof.
  revert e. induction l as [|a l IH]; intros e; simpl; [lra | rewrite IH; lra].
Qed.

End RsumFacts.

Section RealFacts.
Variable rnd : R -> R.
Local Abbreviation RA := (R_arith rnd).
Local Open Scope R_scope.

Lemma vec_eq (u w : @vec RA) :
  vx u = vx w -> vy u = vy w -> vz u = vz w -> u = w.
Proof. destruct u, w; simpl; intros -> -> ->; reflexivity. Qed.

(** The distance does not depend on the direction of the offset. *)
Lemma norm_vsub_sym (a b : @vec RA) : norm (vsub a b) = norm (vsub b a).
Proof.
  unfold norm, dot. simpl. f_equal. ring.
Qed.

Lemma coord_fold_skip (c : @vec RA -> R) (skip : nat -> bool)
    (g : nat -> @vec RA) (l : list nat) (F0 : @vec RA) :
  (forall a b, c (vadd a b) = c a + c b) ->
  c (fold_left (fun F j => if skip j then F else vadd F (g j)) l F0)
  = c F0 + Rsum l (fun j => if skip j then 0 else c (g j)).
Proof.
  intros Hc. revert F0. induction l as [|j l IH]; intros F0; simpl.
  - lra.
  - rewrite IH. destruct (skip j); [lra | rewrite Hc; lra].
Qed.

Lemma coord_fold (c : @vec RA -> R) (g : nat -> @vec RA) (l : list nat)
    (F0 : @vec RA) :
  (forall a b, c (vadd a b) = c a + c b) ->
  c (fold_left (fun F j => vadd F (g j)) l F0) = c F0 + Rsum l (fun j => c (g j)).
Proof.
  intros Hc. revert F0. induction l as [|j l IH]; intros F0; simpl.
  - lra.
  - rewrite IH, Hc. lra.
Qed.

(** One coordinate of what [dv_dt] accumulates. *)
Lemma accel_coord (G : R) (s : @Simulation RA) (i : nat) (q : @vec RA)
    (c : @vec RA -> R) :
  (forall a b, c (vadd a b) = c a + c b) ->
  (forall k a, c (sdiv_r a k) = c a / k) ->
  (forall k a, c (smul_l k a) = k * c a) ->
  (forall a b, c (vsub a b) = c a - c b) ->
  c (@vzeros RA) = 0 ->
  c (accel (A:=RA) G s i q) = newton_coord rnd G s c i q.
Proof.
  intros Hadd Hdiv Hmul Hsub H0. unfold accel, newton_coord.
  rewrite (coord_fold_skip c (Nat.eqb i)) by exact Hadd.
  rewrite H0, Rplus_0_l, <- Rsum_scal. apply Rsum_ext_in. intros j _.
  destruct (Nat.eqb i j); [lra|].
  unfold pull. rewrite Hdiv, Hmul, Hsub. simpl. unfold Rdiv. ring.
Qed.

(** In exact arithmetic the accumulated pull is Newton's formula. *)
Lemma accel_newton (G : R) (s : @Simulation RA) (i : nat) (q : @vec RA) :
  accel (A:=RA) G s i q = newton rnd G s i q.
Proof.
  apply vec_eq; unfold newton; simpl vx; simpl vy; simpl vz;
    apply accel_coord; intros; reflexivity.
Qed.

(** In exact arithmetic the two update rules read as usually written:
    [pos + dt vel], [vel + dt a], and [pos + dt vel + dt^2 a] before the
    round trip. *)
Lemma euler_slot_real (dt : R) (b : @Body RA) (a : @vec RA) :
  euler_slot (A:=RA) dt b a
  = mkBody (@Vec RA (vx (pos b) + dt * vx (vel b))
                    (vy (pos b) + dt * vy (vel b))
                    (vz (pos b) + dt * vz (vel b)))
           (@Vec RA (vx (vel b) + dt * vx a)
                    (vy (vel b) + dt * vy a)
                    (vz (vel b) + dt * vz a)).
Proof.
  unfold euler_slot. f_equal; apply vec_eq; simpl; ring.
Qed.

Lemma sieuler_slot_real (dt : R) (b : @Body RA) (a : @vec RA) :
  sieuler_slot (A:=RA) dt b a
  = mkBody (@Vec RA (rnd (vx (pos b) + dt * vx (vel b) + dt ^ 2 * vx a))
                    (rnd (vy (pos b) + dt * vy (vel b) + dt ^ 2 * vy a))
                    (rnd (vz (pos b) + dt * vz (vel b) + dt ^ 2 * vz a)))
           (@Vec RA (rnd (vx (vel b) + dt * vx a))
                    (rnd (vy (vel b) + dt * vy a))
                    (rnd (vz (vel b) + dt * vz a))).
Proof.
  unfold sieuler_slot, body_single. f_equal; apply vec_eq; simpl; f_equal; ring.
Qed.

Lemma net_force_coord (G : R) (s : @Simulation RA) (c : @vec RA -> R) :
  (forall a b, c (vadd a b) = c a + c b) ->
  (forall k a, c (sdiv_r a k) = c a / k) ->
  (forall k a, c (smul_l k a) = k * c a) ->
  (forall a b, c (vsub a b) = c a - c b) ->
  c (@vzeros RA) = 0 ->
  c (net_force (A:=RA) G s) = 0.
Proof.
  intros Hadd Hdiv Hmul Hsub H0. unfold net_force.
  rewrite coord_fold by exact Hadd. rewrite H0, Rplus_0_l.
  set (F := fun i j : nat =>
              if Nat.eqb i j then 0
              else G * (mass_at s i * mass_at s j)
                   * (c (pos (body_at s j)) - c (pos (body_at s i)))
                   / norm (vsub (pos (body_at s j)) (pos (body_at s i))) ^ 3).
  rewrite (Rsum_ext_in _ _ (fun i => Rsum (seq 0 (length (bodies s))) (F i))).
  - apply Rsum_antisym. intros i j. unfold F.
    destruct (Nat.eqb_spec i j) as [->|Hij].
    + rewrite Nat.eqb_refl. lra.
    + destruct (Nat.eqb_spec j i) as [->|_]; [contradiction|].
      rewrite (norm_vsub_sym (pos (body_at s j)) (pos (body_at s i))).
      unfold Rdiv. ring.
  - intros i _. rewrite Hmul, accel_coord by assumption.
    unfold newton_coord. rewrite <- !Rsum_scal. apply Rsum_ext_in. intros j _.
    unfold F. destruct (Nat.eqb i j); [lra|]. unfold Rdiv. ring.
Qed.

(** C6.  In exact real arithmetic, on a consistent object whose bodies
    are at pairwise distinct positions, every [dv_dt(i)] returns the
    accumulated pull [a_i], and [sum_i m_i * a_i] is the zero vector. *)
Theorem net_force_zero (G : R) (s : @Simulation RA) :
  consistent s -> distinct_positions rnd s ->
  (forall i, (i < length (bodies s))%nat ->
     dv_dt (A:=RA) G (Z.of_nat i) None s
     = (Ok (accel (A:=RA) G s i (pos (body_at s i))), s)) /\
  net_force (A:=RA) G s = @Vec RA 0 0 0.
Proof.
  intros Hc _. split.
  - intros i Hi. apply dv_dt_ok; assumption.
  - apply vec_eq; simpl vx; simpl vy; simpl vz;
      apply net_force_coord; intros; reflexivity.
Qed.

Lemma energy_fold (k : nat -> R) (u : nat -> nat -> R) (L : nat -> list nat)
    (l : list nat) (e0 : R) :
  fold_left (fun e i => fold_left (fun e j => e - u i j) (L i) (e + k i)) l e0
  = e0 + Rsum l k - Rsum l (fun i => Rsum (L i) (u i)).
Proof.
  revert e0. induction l as [|i l IH]; intros e0; simpl.
  - lra.
  - rewrite IH, fold_left_Rminus. lra.
Qed.

Lemma energy_acc_real (G : R) (s : @Simulation RA) :
  energy_acc (A:=RA) G s = kinetic rnd s - potential rnd G s.
Proof.
  unfold energy_acc. cbv zeta.
  rewrite (energy_fold
             (fun i => mass_at s i * norm (vel (body_at s i)) ^ 2 / 2)
             (fun i j => G * mass_at s i * mass_at s j
                         / norm (vsub (pos (body_at s j)) (pos (body_at s i))))
             (fun i => seq (S i) (length (bodies s) - S i))).
  unfold kinetic, potential. simpl of_int. rewrite Rplus_0_l. f_equal.
  - apply Rsum_ext_in. intros i _. lra.
  - apply Rsum_ext_in. intros i _. apply Rsum_ext_in. intros j _.
    rewrite (norm_vsub_sym (pos (body_at s i)) (pos (body_at s j))). reflexivity.
Qed.

(** C7.  In exact real arithmetic, [energy()] on a consistent object
    returns [sum_i (1/2) m_i |v_i|^2 - sum_{i<j} G m_i m_j / |p_i - p_j|],
    every unordered pair entering once, and leaves the object as it was;
    on any object at all it writes nothing. *)
Theorem energy_value (G : R) (s : @Simulation RA) :
  consistent s ->
  energy (A:=RA) G s = (Ok (kinetic rnd s - potential rnd G s), s) /\
  read_only (energy (A:=RA) G).
Proof.
  intros Hc. split.
  - rewrite energy_ok by exact Hc. rewrite energy_acc_real. reflexivity.
  - apply read_only_energy.
Qed.

Lemma py_add_fold (f : nat -> @vec RA) (l : list nat) (u : @vec RA) :
  fold_left (fun acc i => py_add acc (f i)) l (PyArr u)
  = PyArr (fold_left (fun F i => vadd F (f i)) l u).
Proof.
  revert u. induction l as [|i l IH]; intros u; simpl; [reflexivity | apply IH].
Qed.

Lemma weighted_sum_real (s : @Simulation RA) :
  bodies s <> [] -> weighted_sum (A:=RA) pos s = PyArr (mass_moment rnd s).
Proof.
  intros Hne. unfold weighted_sum, mass_moment.
  destruct (bodies s) as [|b bs] eqn:Hbs; [contradiction|].
  simpl length. rewrite <- cons_seq. simpl fold_left.
  rewrite py_add_fold. f_equal.
  apply vec_eq; simpl vx; simpl vy; simpl vz;
    rewrite coord_fold by (intros; reflexivity); simpl; lra.
Qed.

Lemma sum_masses_real (s : @Simulation RA) :
  length (bodies s) = length (masses s) ->
  sum_masses (A:=RA) (masses s) = total_mass rnd s.
Proof.
  intros Hlen. unfold sum_masses, total_mass. simpl.
  rewrite fold_left_Rplus, Hlen, Rplus_0_l. reflexivity.
Qed.

Lemma center_of_mass_real (s : @Simulation RA) :
  consistent s -> (0 < n s)%Z ->
  center_of_mass (A:=RA) s
  = (Ok (PyArr (sdiv_r (mass_moment rnd s) (total_mass rnd s))), s).
Proof.
  intros Hc Hpos. pose proof Hc as [Hn Hlen].
  rewrite center_of_mass_run by exact Hc.
  assert (bodies s <> []) as Hne.
  { intros Hnil. rewrite Hnil in Hlen. rewrite <- Hlen in Hn. simpl in Hn. lia. }
  rewrite (weighted_sum_real s Hne), (sum_masses_real s Hlen).
  reflexivity.
Qed.

End RealFacts.

Lemma center_of_mass_single (rnd : R -> R) (s : @Simulation (R_arith rnd))
    (mass : R) (b : @Body (R_arith rnd)) :
  consistent s -> masses s = [mass] -> bodies s = [b] -> mass <> 0%R ->
  center_of_mass s = (Ok (PyArr (pos b)), s).
Proof.
  intros Hc Hms Hbs Hm. pose proof Hc as [Hn Hlen].
  rewrite center_of_mass_real by (first [exact Hc | rewrite Hn, Hms; simpl; lia]).
  do 3 f_equal. unfold mass_moment, total_mass, mass_at, body_at.
  rewrite Hms, Hbs. destruct b as [[x y z] w]. simpl.
  unfold sdiv_r, vmap. simpl.
  f_equal; match goal with |- @eq _ ?a ?c => change (@eq R a c) end;
    field; exact Hm.
Qed.

(** C8, as the program has it.  On a consistent object, for every
    arithmetic: with no body, [center_of_mass()] raises
    [ZeroDivisionError]; with at least one body it does not raise and
    returns the accumulated [sum_i m_i p_i] divided, coordinate by
    coordinate, by [sum(masses)], a zero total mass included.  In exact real
    arithmetic that value is [sum_i m_i p_i / sum_i m_i], and for a single
    body of non-zero mass it is the body's own position. *)
Theorem center_of_mass_cases :
  (forall (A : Arith) (s : Simulation), consistent s ->
     (n s = 0 -> center_of_mass s = (Raise ZeroDivisionError, s)) /\
     (0 < n s ->
        exists w, weighted_sum pos s = PyArr w /\
                  center_of_mass s
                  = (Ok (PyArr (sdiv_r w (sum_masses (masses s)))), s))) /\
  (forall (rnd : R -> R) (s : @Simulation (R_arith rnd)), consistent s ->
     (0 < n s ->
        center_of_mass s
        = (Ok (PyArr (sdiv_r (mass_moment rnd s) (total_mass rnd s))), s)) /\
     (forall mass b, masses s = [mass] -> bodies s = [b] -> mass <> 0%R ->
        center_of_mass s = (Ok (PyArr (pos b)), s))).
Proof.
  split.
  - intros A s Hc. split.
    + apply center_of_mass_empty. exact Hc.
    + apply center_of_mass_nonempty. exact Hc.
  - intros rnd s Hc. split.
    + apply center_of_mass_real. exact Hc.
    + intros mass b. apply center_of_mass_single. exact Hc.
Qed.

(** ** IEEE binary64: coincident bodies *)

Section B64Facts.
Import B64.
Local Abbreviation FA := B64.arith.

Lemma sub_self (x : spec_float) : zero_or_nan (SFsub prec emax x x) = true.
Proof.
  destruct x as [[|]|[|]| |sx m e]; try reflexivity.
  cbv beta iota zeta delta [SFsub]. rewrite Z.sub_diag. reflexivity.
Qed.

Lemma mul_zero_or_nan (x y : spec_float) :
  zero_or_nan y = true -> zero_or_nan (SFmul prec emax x y) = true.
Proof. destruct x, y; simpl; intros H; try discriminate H; reflexivity. Qed.

Lemma add_zero_or_nan (x y : spec_float) :
  zero_or_nan x = true -> zero_or_nan y = true ->
  zero_or_nan (SFadd prec emax x y) = true.
Proof.
  destruct x as [[|]| | |], y as [[|]| | |]; simpl; intros Hx Hy;
    try discriminate Hx; try discriminate Hy; reflexivity.
Qed.

Lemma sqrt_zero_or_nan (x : spec_float) :
  zero_or_nan x = true -> zero_or_nan (SFsqrt prec emax x) = true.
Proof. destruct x; simpl; intros H; try discriminate H; reflexivity. Qed.

Lemma div_zero_or_nan (x y : spec_float) :
  zero_or_nan x = true -> zero_or_nan y = true ->
  SFdiv prec emax x y = S754_nan.
Proof.
  destruct x, y; simpl; intros Hx Hy;
    try discriminate Hx; try discriminate Hy; reflexivity.
Qed.

Lemma add_nan_r (x : spec_float) : SFadd prec emax x S754_nan = S754_nan.
Proof. destruct x; reflexivity. Qed.

Lemma pow3_zero_or_nan (x : spec_float) :
  zero_or_nan x = true -> zero_or_nan (pow x 3) = true.
Proof.
  intros Hx. unfold pow. simpl Pos.iter.
  repeat apply mul_zero_or_nan. exact Hx.
Qed.

(** The contribution of a body sitting exactly on the evaluation point. *)
Lemma pull_self (G mj : spec_float) (p : @vec FA) :
  pull (A:=FA) G mj (vsub p p) = nan3.
Proof.
  destruct p as [x y z]. unfold pull, vsub, vmap2, sdiv_r, smul_l, vmap, nan3.
  cbn [vx vy vz nadd nsub nmul ndiv nsqrt npow FA arith].
  assert (zero_or_nan (pow (norm (A:=FA)
            (@Vec FA (SFsub prec emax x x) (SFsub prec emax y y)
                     (SFsub prec emax z z))) 3) = true) as Hd.
  { apply pow3_zero_or_nan. unfold norm, dot.
    cbn [vx vy vz nadd nsub nmul ndiv nsqrt npow FA arith].
    apply sqrt_zero_or_nan.
    repeat apply add_zero_or_nan; apply mul_zero_or_nan; apply sub_self. }
  f_equal; (apply div_zero_or_nan; [apply mul_zero_or_nan; apply sub_self | exact Hd]).
Qed.

Lemma vadd_nan3_r (F : @vec FA) : vadd F nan3 = nan3.
Proof.
  destruct F as [x y z]. unfold vadd, vmap2, nan3. simpl.
  rewrite !add_nan_r. reflexivity.
Qed.

Lemma vadd_nan3_l (F : @vec FA) : vadd nan3 F = nan3.
Proof. destruct F; reflexivity. Qed.

Lemma smul_r_nan3 (k : spec_float) : smul_r (A:=FA) nan3 k = nan3.
Proof. reflexivity. Qed.

(** Once the accumulator is NaN it stays NaN. *)
Lemma accel_fold_nan (G : spec_float) (s : @Simulation FA) (i : nat)
    (q : @vec FA) (l : list nat) :
  fold_left (fun F j =>
               if Nat.eqb i j then F
               else vadd F (pull (A:=FA) G (mass_at s j) (vsub (pos (body_at s j)) q)))
            l nan3 = nan3.
Proof.
  induction l as [|j l IH]; simpl; [reflexivity|].
  destruct (Nat.eqb i j); [exact IH|]. rewrite vadd_nan3_l. exact IH.
Qed.

Lemma accel_fold_hit (G : spec_float) (s : @Simulation FA) (i j : nat)
    (l : list nat) (F0 : @vec FA) :
  In j l -> i <> j -> pos (body_at s j) = pos (body_at s i) ->
  fold_left (fun F j =>
               if Nat.eqb i j then F
               else vadd F (pull (A:=FA) G (mass_at s j)
                                 (vsub (pos (body_at s j)) (pos (body_at s i)))))
            l F0 = nan3.
Proof.
  intros Hj Hij Hpos. revert F0. induction l as [|k l IH]; intros F0.
  - destruct Hj.
  - simpl. destruct Hj as [->|Hj].
    + destruct (Nat.eqb_spec i j) as [Heq|_]; [contradiction|].
      rewrite Hpos, pull_self, vadd_nan3_r. apply accel_fold_nan.
    + apply IH. exact Hj.
Qed.

Lemma accel_coincident (G : spec_float) (s : @Simulation FA) (i j : nat) :
  (j < length (bodies s))%nat -> i <> j ->
  pos (body_at s j) = pos (body_at s i) ->
  accel (A:=FA) G s i (pos (body_at s i)) = nan3.
Proof.
  intros Hj Hij Hpos. unfold accel.
  apply (accel_fold_hit G s i j); [apply in_seq; lia | exact Hij | exact Hpos].
Qed.

End B64Facts.

Section CandidateFacts.
Context {A : Arith}.

(** On a consistent object the [body] argument of [dv_dt] has no effect
    on the result. *)
Lemma dv_dt_candidate_unused (G : num) (s : Simulation) (i : nat) (b : Body) :
  consistent s -> (i < length (bodies s))%nat ->
  dv_dt G (Z.of_nat i) (Some b) s = dv_dt G (Z.of_nat i) None s.
Proof.
  intros Hc Hi. rewrite !dv_dt_ok by assumption. reflexivity.
Qed.

End CandidateFacts.

Section B64Runs.
Import B64.
Local Abbreviation FA := B64.arith.

Lemma euler_slot_nan (dt : spec_float) (b : @Body FA) :
  vel (euler_slot (A:=FA) dt b nan3) = nan3.
Proof. unfold euler_slot. simpl vel. rewrite smul_r_nan3. apply vadd_nan3_r. Qed.

Lemma sieuler_slot_nan (dt : spec_float) (b : @Body FA) :
  sieuler_slot (A:=FA) dt b nan3 = mkBody nan3 nan3.
Proof.
  unfold sieuler_slot. rewrite !smul_r_nan3, !vadd_nan3_r. reflexivity.
Qed.

(** C3, as the program has it.  In binary64, on a consistent object in
    which body [i] shares its position with another body [j], nothing is
    raised: [dv_dt(i)] returns NaN in every coordinate, and both
    integrators return normally and commit, advancing [t] by [dt] and
    storing a NaN velocity for body [i] ([step_sieuler] a NaN position as
    well). *)
Theorem coincident_bodies_commit
    (G dt : spec_float) (s : @Simulation FA) (i j : nat) :
  consistent s ->
  (i < length (bodies s))%nat -> (j < length (bodies s))%nat -> i <> j ->
  pos (body_at s i) = pos (body_at s j) ->
  dv_dt (A:=FA) G (Z.of_nat i) None s = (Ok nan3, s) /\
  (exists s', step_euler (A:=FA) G dt s = (Ok tt, s') /\
              t s' = SFadd prec emax (t s) dt /\
              vel <$> bodies s' !! i = Some nan3) /\
  (exists s', step_sieuler (A:=FA) G dt s = (Ok tt, s') /\
              t s' = SFadd prec emax (t s) dt /\
              bodies s' !! i = Some (mkBody nan3 nan3)).
Proof.
  intros Hc Hi Hj Hij Hpos.
  assert (accel (A:=FA) G s i (pos (body_at s i)) = nan3) as Hnan.
  { apply (accel_coincident G s i j); [exact Hj | exact Hij | symmetry; exact Hpos]. }
  split; [|split].
  - rewrite dv_dt_ok by assumption. rewrite Hnan. reflexivity.
  - eexists. split; [apply step_euler_ok; exact Hc|]. split; [reflexivity|].
    simpl bodies. rewrite slots_lookup by exact Hi. rewrite Hnan.
    cbn [fmap option_fmap option_map]. rewrite euler_slot_nan. reflexivity.
  - eexists. split; [apply step_sieuler_ok; exact Hc|]. split; [reflexivity|].
    simpl bodies. rewrite slots_lookup by exact Hi.
    rewrite Hnan, sieuler_slot_nan. reflexivity.
Qed.

Lemma coincident_bodies_commit_witness :
  consistent twins /\
  pos (body_at twins 0) = pos (body_at twins 1) /\
  dv_dt (A:=FA) G0 0 None twins = (Ok nan3, twins).
Proof.
  assert (consistent twins) as Hc by (split; reflexivity).
  split; [exact Hc|]. split; [reflexivity|].
  apply (coincident_bodies_commit G0 dt0 twins 0 1 Hc);
    [simpl; lia | simpl; lia | discriminate | reflexivity].
Defined.

(** At two coincident bodies the evaluator returns and the step commits:
    the stored blocks change, into NaN. *)
Lemma coincident_step_commits :
  pos (body_at twins 0) = pos (body_at twins 1) /\
  dv_dt (A:=FA) G0 0 None twins = (Ok nan3, twins) /\
  exists s', step_sieuler (A:=FA) G0 dt0 twins = (Ok tt, s') /\
             bodies s' <> bodies twins /\
             bodies s' !! 0%nat = Some (mkBody nan3 nan3).
Proof.
  split; [reflexivity|]. split; [reflexivity|].
  eexists. split; [reflexivity|]. split.
  - intros H.
    apply (f_equal (fun l : list (@Body FA) =>
                             match l with
                             | b :: _ => is_zero (vx (pos b))
                             | [] => false
                             end)) in H.
    vm_compute in H. discriminate H.
  - reflexivity.
Qed.

(** C2.  [dv_dt(1, candidate)] on the start-up scene, with the candidate
    position [(2,0,0)] for body 1 stored at [(1,0,0)]: the result is the
    pull on the stored position, [(-1,0,0)], the very result of
    [dv_dt(1)], and not the pull on the candidate position. *)
Theorem dv_dt_candidate_ignored :
  dv_dt (A:=FA) G0 1 (Some candidate) scene = (Ok (ints (-1) 0 0), scene) /\
  dv_dt (A:=FA) G0 1 None scene = (Ok (ints (-1) 0 0), scene) /\
  accel (A:=FA) G0 scene 1 (pos candidate) <> ints (-1) 0 0.
Proof.
  split; [reflexivity|]. split; [reflexivity|].
  intros H. apply (f_equal vx) in H. vm_compute in H. discriminate H.
Qed.

(** An index of [-1] is outside [0 .. len(bodies)-1], yet [set_body] and
    [remove_body] return and change the last body. *)
Lemma negative_index_accepted :
  ~ (0 <= -1 < Z.of_nat (length (bodies scene))) /\
  (exists s', set_body (A:=FA) (-1) (of_Z 2) (ints 5 5 5) (ints 0 0 0) scene
              = (Ok tt, s') /\ bodies s' <> bodies scene) /\
  (exists s', remove_body (A:=FA) (-1) scene = (Ok tt, s') /\
              length (bodies s') = 2%nat).
Proof.
  split; [lia|]. split.
  - eexists. split; [reflexivity|].
    intros H.
    apply (f_equal (fun l : list (@Body FA) =>
                             match l !! 2%nat with
                             | Some b => SFeqb (vx (A:=FA) (pos b)) (of_Z 5)
                             | None => false
                             end)) in H.
    vm_compute in H. discriminate H.
  - eexists. split; [reflexivity | reflexivity].
Qed.

(** One body of mass zero: the total mass is zero and nothing is raised;
    the result is NaN in every coordinate. *)
Lemma zero_total_mass_returns :
  n massless = 1 /\
  is_zero (sum_masses (A:=FA) (masses massless)) = true /\
  center_of_mass (A:=FA) massless = (Ok (PyArr nan3), massless).
Proof. repeat split. Qed.

(** In binary64 a single body of mass 3 at [0.1] is reported at the next
    double above [0.1]: the product and the quotient both round. *)
Lemma center_of_mass_single_rounds :
  exists w, center_of_mass (A:=FA) lone = (Ok (PyArr w), lone) /\
            w <> pos (body_at lone 0).
Proof.
  eexists. split; [reflexivity|].
  intros H. apply (f_equal vx) in H. vm_compute in H. discriminate H.
Qed.

(** A constructor call with one mass and no body: [n] is 1 and [bodies] is
    empty. *)
Lemma lopsided_not_consistent : ~ consistent lopsided.
Proof. intros [_ H]. simpl in H. discriminate H. Qed.

End B64Runs.

(** ** The theorems at concrete objects *)

Section Instances.
Import B64.
Local Abbreviation FA := B64.arith.
Local Abbreviation RI := (R_arith (fun x : R => x)).

Lemma step_euler_snapshot_witness :
  consistent scene /\
  t (snd (step_euler (A:=FA) G0 dt0 scene)) = SFadd prec emax (t scene) dt0 /\
  length (bodies (snd (step_euler (A:=FA) G0 dt0 scene))) = length (bodies scene).
Proof.
  assert (consistent scene) as Hc by (split; reflexivity).
  split; [exact Hc|].
  assert (step_euler (A:=FA) G0 dt0 scene
          = (Ok tt, snd (step_euler (A:=FA) G0 dt0 scene))) as Hrun
      by reflexivity.
  destruct (step_euler_snapshot (A:=FA) G0 scene dt0 (Ok tt) _ Hrun) as [_ Hok].
  destruct (Hok Hc) as (_ & Ht & Hlen & _ & _).
  split; [exact Ht | exact Hlen].
Defined.

Lemma step_sieuler_update_witness :
  consistent scene /\
  t (snd (step_sieuler (A:=FA) G0 dt0 scene)) = SFadd prec emax (t scene) dt0 /\
  length (bodies (snd (step_sieuler (A:=FA) G0 dt0 scene))) = length (bodies scene).
Proof.
  assert (consistent scene) as Hc by (split; reflexivity).
  split; [exact Hc|].
  assert (step_sieuler (A:=FA) G0 dt0 scene
          = (Ok tt, snd (step_sieuler (A:=FA) G0 dt0 scene))) as Hrun
      by reflexivity.
  destruct (step_sieuler_update (A:=FA) G0 scene dt0 (Ok tt) _ Hrun) as [_ Hok].
  destruct (Hok Hc) as (_ & Ht & Hlen & _ & _).
  split; [exact Ht | exact Hlen].
Defined.

Lemma mutators_index_range_witness :
  length (masses scene) = length (bodies scene) /\
  Z.of_nat (length (bodies scene)) <= 3 /\
  set_body (A:=FA) 3 (of_Z 2) (ints 5 5 5) (ints 0 0 0) scene
  = (Raise IndexError, scene) /\
  remove_body (A:=FA) 3 scene = (Raise IndexError, scene).
Proof.
  split; [reflexivity|]. split; [simpl; lia|].
  apply (proj1 (mutators_index_range scene 3 (of_Z 2) (ints 5 5 5) (ints 0 0 0)
                  eq_refl)).
  right. simpl. lia.
Defined.

Lemma lock_step_invariant_witness :
  consistent (__init__ (A:=FA) [] []) /\
  consistent (snd (add_body (A:=FA) (of_Z 1) (ints 0 0 0) (ints 0 0 0)
                            (__init__ (A:=FA) [] []))) /\
  consistent (snd (set_body (A:=FA) (-1) (of_Z 2) (ints 5 5 5) (ints 0 0 0) scene)) /\
  consistent (snd (remove_body (A:=FA) 0 scene)).
Proof.
  destruct (@lock_step_invariant FA) as [Hinit Hops].
  assert (consistent (__init__ (A:=FA) [] [])) as H0 by (apply Hinit; reflexivity).
  assert (consistent scene) as Hc by (split; reflexivity).
  split; [exact H0|]. split; [|split].
  - destruct (Hops _ H0) as (Hadd & _ & _).
    apply (Hadd (of_Z 1) (ints 0 0 0) (ints 0 0 0) _ eq_refl).
  - destruct (Hops _ Hc) as (_ & Hset & _).
    apply (Hset (-1) (of_Z 2) (ints 5 5 5) (ints 0 0 0) _ eq_refl).
  - destruct (Hops _ Hc) as (_ & _ & Hrem).
    apply (Hrem 0 _ eq_refl).
Defined.

Lemma pair_R_distinct : distinct_positions (fun x : R => x) (pair_R (fun x : R => x)).
Proof.
  intros i j Hi Hj Hij H. simpl in Hi, Hj.
  destruct i as [|[|i]], j as [|[|j]]; try lia; simpl in H;
    injection H; intros; lra.
Qed.

Lemma net_force_zero_witness :
  consistent (pair_R (fun x : R => x)) /\
  distinct_positions (fun x : R => x) (pair_R (fun x : R => x)) /\
  net_force (A:=RI) 1%R (pair_R (fun x : R => x)) = @Vec RI 0%R 0%R 0%R.
Proof.
  assert (consistent (pair_R (fun x : R => x))) as Hc by (split; reflexivity).
  split; [exact Hc|]. split; [exact pair_R_distinct|].
  apply (proj2 (net_force_zero (fun x : R => x) 1%R _ Hc pair_R_distinct)).
Defined.

Lemma energy_value_witness :
  consistent (pair_R (fun x : R => x)) /\
  energy (A:=RI) 1%R (pair_R (fun x : R => x))
  = (Ok (kinetic (fun x : R => x) (pair_R (fun x : R => x))
         - potential (fun x : R => x) 1%R (pair_R (fun x : R => x)))%R,
     pair_R (fun x : R => x)).
Proof.
  assert (consistent (pair_R (fun x : R => x))) as Hc by (split; reflexivity).
  split; [exact Hc|].
  apply (proj1 (energy_value (fun x : R => x) 1%R _ Hc)).
Defined.

Lemma center_of_mass_cases_witness :
  center_of_mass (__init__ (A:=FA) [] [])
  = (Raise ZeroDivisionError, __init__ (A:=FA) [] []) /\
  (exists w, center_of_mass (A:=FA) scene
             = (Ok (PyArr (sdiv_r w (sum_masses (masses scene)))), scene)) /\
  center_of_mass (A:=RI)
    (__init__ (A:=RI) [2%R] [mkBody (@Vec RI 1%R 0%R 0%R) (@Vec RI 0%R 0%R 0%R)])
  = (Ok (PyArr (@Vec RI 1%R 0%R 0%R)),
     __init__ (A:=RI) [2%R] [mkBody (@Vec RI 1%R 0%R 0%R) (@Vec RI 0%R 0%R 0%R)]).
Proof.
  destruct center_of_mass_cases as [Hany Hreal].
  assert (consistent (__init__ (A:=FA) [] [])) as He by (split; reflexivity).
  assert (consistent scene) as Hc by (split; reflexivity).
  assert (consistent (__init__ (A:=RI) [2%R]
            [mkBody (@Vec RI 1%R 0%R 0%R) (@Vec RI 0%R 0%R 0%R)])) as Hr
    by (split; reflexivity).
  split; [|split].
  - apply (proj1 (Hany FA _ He)). reflexivity.
  - destruct (proj2 (Hany FA _ Hc)) as (w & _ & Hw); [simpl; lia|].
    exists w. exact Hw.
  - apply (proj2 (Hreal (fun x : R => x) _ Hr)
             2%R (mkBody (@Vec RI 1%R 0%R 0%R) (@Vec RI 0%R 0%R 0%R))
             eq_refl eq_refl).
    lra.
Defined.

End Instances.

(** ** Mutators: round trips, lookups and failures *)

Section MutatorMore.
Context {A : Arith}.

Lemma py_index_last (len : nat) : py_index (S len) (-1) = Some len.
Proof.
  unfold py_index.
  destruct (Z.leb_spec 0 (-1)); [lia|].
  destruct (Z.ltb_spec (-1) 0); [|lia].
  destruct (Z.leb_spec (- Z.of_nat (S len)) (-1)); [|lia].
  simpl. f_equal. lia.
Qed.

Lemma sim_eta (s : Simulation) :
  mkSim (masses s) (bodies s) (t s) (n s) (running s) = s.
Proof. destruct s. reflexivity. Qed.

(** X1.  On every object, [add_body] followed by [remove_body(-1)]
    returns and leaves the object exactly as it was before the two
    calls. *)
Theorem add_then_remove_last (s : Simulation) (mass : num) (p v : vec) :
  bind (add_body mass p v) (fun _ => remove_body (-1)) s = (Ok tt, s).
Proof.
  unfold bind at 1. rewrite add_body_run, remove_body_run.
  cbn [masses bodies n t running set_n set_bodies set_masses].
  rewrite !length_app. cbn [length]. rewrite !Nat.add_1_r, !py_index_last.
  rewrite !delete_middle, !app_nil_r.
  destruct s. unfold set_n, set_bodies, set_masses. simpl.
  do 2 f_equal. lia.
Qed.

(** X2.  With the two lists in lock-step, after a [set_body] that returns,
    reading both lists at the same index gives back the mass and the block
    just written; every other entry, [n], [t] and [running] are as
    before. *)
Theorem set_body_then_lookup
    (s s' : Simulation) (index : Z) (mass : num) (p v : vec) :
  length (masses s) = length (bodies s) ->
  set_body index mass p v s = (Ok tt, s') ->
  getitem (masses s') index s' = (Ok mass, s') /\
  getitem (bodies s') index s' = (Ok (mkBody p v), s') /\
  (exists k, py_index (length (bodies s)) index = Some k /\
     forall j, j <> k ->
       masses s' !! j = masses s !! j /\ bodies s' !! j = bodies s !! j) /\
  n s' = n s /\ t s' = t s /\ running s' = running s.
Proof.
  intros Hlen Hrun. rewrite set_body_run, Hlen in Hrun.
  destruct (py_index (length (bodies s)) index) as [k|] eqn:Hk; [|discriminate].
  injection Hrun as <-. pose proof (py_index_some _ _ _ Hk) as Hlt.
  unfold getitem. simpl. rewrite !length_insert, Hlen, Hk.
  rewrite !list_lookup_insert_eq by lia.
  repeat split. exists k. split; [reflexivity|]. intros j Hj.
  rewrite !list_lookup_insert_ne by (intros ->; apply Hj; reflexivity).
  split; reflexivity.
Qed.

(** X3.  With the two lists in lock-step, a [remove_body] that returns
    removes the pair at the addressed position [k]: pairs before [k] keep
    their index, every later pair moves down by one, and [n] drops by
    one. *)
Theorem remove_body_shifts (s s' : Simulation) (index : Z) :
  length (masses s) = length (bodies s) ->
  remove_body index s = (Ok tt, s') ->
  exists k, py_index (length (bodies s)) index = Some k /\
    n s' = n s - 1 /\
    length (paired s') = (length (paired s) - 1)%nat /\
    (forall j, (j < k)%nat -> paired s' !! j = paired s !! j) /\
    (forall j, (k <= j)%nat -> paired s' !! j = paired s !! S j).
Proof.
  intros Hlen Hrun. rewrite remove_body_run, Hlen in Hrun.
  destruct (py_index (length (bodies s)) index) as [k|] eqn:Hk; [|discriminate].
  injection Hrun as <-. pose proof (py_index_some _ _ _ Hk) as Hlt.
  exists k. split; [reflexivity|]. split; [reflexivity|].
  unfold paired. simpl. rewrite <- delete_zip.
  split; [|split].
  - apply length_delete. apply lookup_lt_is_Some.
    rewrite length_zip_with. lia.
  - intros j Hj. apply list_lookup_delete_lt. exact Hj.
  - intros j Hj. apply list_lookup_delete_ge. exact Hj.
Qed.

(** X4.  On an object whose [masses] list is longer than its [bodies]
    list, an index valid for [masses] only makes [set_body] and
    [remove_body] raise [IndexError] after the mass was overwritten, or
    popped: [bodies] and [n] are as before, [masses] is not. *)
Theorem mutators_fail_half_way
    (s : Simulation) (index : Z) (mass : num) (p v : vec) :
  Z.of_nat (length (bodies s)) <= index < Z.of_nat (length (masses s)) ->
  (exists s', set_body index mass p v s = (Raise IndexError, s') /\
              masses s' !! Z.to_nat index = Some mass /\
              bodies s' = bodies s /\ n s' = n s) /\
  (exists s', remove_body index s = (Raise IndexError, s') /\
              length (masses s') = (length (masses s) - 1)%nat /\
              bodies s' = bodies s /\ n s' = n s).
Proof.
  intros Hi.
  assert (py_index (length (masses s)) index = Some (Z.to_nat index)) as Hm.
  { rewrite <- (Z2Nat.id index) at 1 by lia. apply py_index_front. lia. }
  assert (py_index (length (bodies s)) index = None) as Hb
    by (apply py_index_out; lia).
  split.
  - eexists. rewrite set_body_run, Hm, Hb. split; [reflexivity|].
    simpl. split; [apply list_lookup_insert_eq; lia|]. split; reflexivity.
  - eexists. rewrite remove_body_run, Hm, Hb. split; [reflexivity|].
    simpl. split; [|split; reflexivity].
    apply length_delete. apply lookup_lt_is_Some. lia.
Qed.

End MutatorMore.

(** ** What the methods can raise *)

Section RaiseFacts.
Context {A : Arith}.
Variable G : num.

Lemma ieo_ret {B} (b : B) : index_error_only (ret b).
Proof. intros s e s' H. discriminate H. Qed.

Lemma ieo_gets {B} (f : Simulation -> B) : index_error_only (gets f).
Proof. intros s e s' H. discriminate H. Qed.

Lemma ieo_modify (f : Simulation -> Simulation) : index_error_only (modify f).
Proof. intros s e s' H. discriminate H. Qed.

Lemma ieo_raise {B} : index_error_only (@raise A B IndexError).
Proof. intros s e s' [= <- _]. reflexivity. Qed.

Lemma ieo_bind {B C} (m : M B) (k : B -> M C) :
  index_error_only m -> (forall b, index_error_only (k b)) ->
  index_error_only (bind m k).
Proof.
  intros Hm Hk s e s'. unfold bind. specialize (Hm s).
  destruct (m s) as [[b|e0] s1].
  - apply Hk.
  - intros [= <- _]. eapply Hm. reflexivity.
Qed.



Lemma ieo_getitem {B} (l : list B) i : index_error_only (getitem l i).
Proof.
  unfold getitem. destruct (py_index _ _) as [k|]; [|apply ieo_raise].
  destruct (l !! k); [apply ieo_ret | apply ieo_raise].
Qed.

Ltac ieo_steps :=
  repeat (first [ apply ieo_ret | apply ieo_gets | apply ieo_modify
                | apply ieo_getitem | apply ieo_raise
                | apply ieo_bind; [|intros ?] ]).











(** A loop one of whose passes raises, the others returning or raising
    the same, raises. *)
Lemma foldM_hits_raise {B C} (f : C -> B -> M C) (l : list B) (s : Simulation)
    (x0 : B) :
  (forall acc x, read_only (f acc x)) ->
  (forall acc x, index_error_only (f acc x)) ->
  In x0 l -> (forall acc, f acc x0 s = (Raise IndexError, s)) ->
  forall acc, foldM f l acc s = (Raise IndexError, s).
Proof.
  intros Hro Hie Hin Hx0. induction l as [|x l IH]; intros acc; [destruct Hin|].
  simpl. unfold bind.
  pose proof (Hro acc x s) as Hs. pose proof (Hie acc x s) as He.
  destruct (f acc x s) as [[a|e] s1] eqn:Hf; simpl in Hs; subst s1.
  - destruct Hin as [->|Hin].
    + rewrite Hx0 in Hf. discriminate Hf.
    + apply IH. exact Hin.
  - rewrite (He e s eq_refl). reflexivity.
Qed.

Lemma getitem_out {B} (l : list B) (i : Z) (s : Simulation) :
  py_index (length l) i = None -> getitem l i s = (Raise IndexError, s).
Proof. intros H. unfold getitem. rewrite H. reflexivity. Qed.

Lemma in_py_range (x b : Z) : 0 <= x < b -> In x (py_range 0 b).
Proof.
  intros Hx. unfold py_range. apply in_map_iff. exists (Z.to_nat x).
  split; [lia|]. apply in_seq. lia.
Qed.

Lemma py_range_cons (b : Z) :
  0 < b -> exists l, py_range 0 b = 0 :: l.
Proof.
  intros Hb. unfold py_range.
  destruct (Z.to_nat (b - 0)) as [|k] eqn:Hk; [lia|].
  simpl. eexists. reflexivity.
Qed.

(** With fewer blocks than [n], the evaluation for body 0 runs into the
    missing block. *)
Lemma dv_dt_short_bodies (s : Simulation) (body : Body) :
  (0 < length (bodies s))%nat -> Z.of_nat (length (bodies s)) < n s ->
  dv_dt G 0 (Some body) s = (Raise IndexError, s).
Proof.
  intros Hlen Hn. unfold dv_dt.
  rewrite (bind_ok _ _ s body s) by reflexivity.
  rewrite (bind_ok _ _ s (n s) s) by reflexivity.
  apply (foldM_hits_raise _ _ s (Z.of_nat (length (bodies s)))).
  - intros F j. destruct (0 =? j); [apply read_only_ret|].
    repeat (first [ apply read_only_ret | apply read_only_gets
                  | apply read_only_getitem
                  | apply read_only_bind; [|intros ?] ]).
  - intros F j. destruct (0 =? j); ieo_steps.
  - apply in_py_range. lia.
  - intros F. destruct (Z.eqb_spec 0 (Z.of_nat (length (bodies s)))); [lia|].
    rewrite (bind_ok _ _ s (bodies s) s) by reflexivity.
    apply bind_raise. apply getitem_out. apply py_index_out. lia.
Qed.

Lemma body0_cases (s : Simulation) :
  Z.of_nat (length (bodies s)) < n s ->
  getitem (bodies s) 0 s = (Raise IndexError, s) \/
  ((0 < length (bodies s))%nat /\
   getitem (bodies s) 0 s = (Ok (body_at s 0%nat), s)).
Proof.
  intros Hn. destruct (Nat.eq_dec (length (bodies s)) 0%nat) as [H0|H0].
  - left. apply getitem_out. apply py_index_out. lia.
  - right. split; [lia|]. apply (body_lookup s 0%nat). lia.
Qed.

Lemma ode_short_bodies (s : Simulation) :
  Z.of_nat (length (bodies s)) < n s ->
  ode G 0 None s = (Raise IndexError, s).
Proof.
  intros Hn. unfold ode.
  destruct (body0_cases s Hn) as [Hr | [Hpos Hok]].
  - apply bind_raise. rewrite (bind_ok _ _ s (bodies s) s) by reflexivity.
    exact Hr.
  - rewrite (bind_ok _ _ s (body_at s 0%nat) s).
    2:{ rewrite (bind_ok _ _ s (bodies s) s) by reflexivity. exact Hok. }
    apply bind_raise. apply dv_dt_short_bodies; assumption.
Qed.

Lemma slots_short_bodies (f : Z -> M Body) (s : Simulation) :
  Z.of_nat (length (bodies s)) < n s ->
  f 0 s = (Raise IndexError, s) ->
  mapM f (py_range 0 (n s)) s = (Raise IndexError, s).
Proof.
  intros Hn Hf. destruct (py_range_cons (n s)) as [l ->]; [lia|].
  simpl. apply bind_raise. exact Hf.
Qed.

Lemma euler_slots_short (dt : num) (s : Simulation) :
  Z.of_nat (length (bodies s)) < n s ->
  euler_slots G dt 0 s = (Raise IndexError, s).
Proof.
  intros Hn. unfold euler_slots.
  rewrite (bind_ok _ _ s (bodies s) s) by reflexivity.
  destruct (body0_cases s Hn) as [Hr | [Hpos Hok]].
  - apply bind_raise. exact Hr.
  - rewrite (bind_ok _ _ _ _ _ Hok).
    apply bind_raise. apply ode_short_bodies. exact Hn.
Qed.

Lemma sieuler_slots_short (dt : num) (s : Simulation) :
  Z.of_nat (length (bodies s)) < n s ->
  sieuler_slots G dt 0 s = (Raise IndexError, s).
Proof.
  intros Hn. unfold sieuler_slots.
  rewrite (bind_ok _ _ s (bodies s) s) by reflexivity.
  destruct (body0_cases s Hn) as [Hr | [Hpos Hok]].
  - apply bind_raise. exact Hr.
  - rewrite (bind_ok _ _ _ _ _ Hok).
    apply bind_raise. apply ode_short_bodies. exact Hn.
Qed.

(** X6.  On an object that holds fewer blocks than its count [n] says,
    both integrators raise [IndexError] and leave the object exactly as
    it was. *)
Theorem steps_raise_on_short_bodies (s : Simulation) (dt : num) :
  Z.of_nat (length (bodies s)) < n s ->
  step_euler G dt s = (Raise IndexError, s) /\
  step_sieuler G dt s = (Raise IndexError, s).
Proof.
  intros Hn. split.
  - rewrite step_euler_unfold. unfold commit. apply bind_raise.
    apply slots_short_bodies; [exact Hn | apply euler_slots_short; exact Hn].
  - rewrite step_sieuler_unfold. unfold commit. apply bind_raise.
    apply slots_short_bodies; [exact Hn | apply sieuler_slots_short; exact Hn].
Qed.

Lemma mapM_length {B C} (f : B -> M C) (l : list B) (s s' : Simulation)
    (ys : list C) :
  mapM f l s = (Ok ys, s') -> length ys = length l.
Proof.
  revert s s' ys. induction l as [|x l IH]; intros s s' ys; simpl.
  - intros [= <- _]. reflexivity.
  - unfold bind at 1. destruct (f x s) as [[y|e] s1]; [|discriminate].
    unfold bind at 1. destruct (mapM f l s1) as [[zs|e] s2] eqn:Hm; [|discriminate].
    intros [= <- _]. simpl. f_equal. eapply IH. exact Hm.
Qed.

Lemma length_py_range (b : Z) : length (py_range 0 b) = Z.to_nat b.
Proof.
  unfold py_range. rewrite length_map, length_seq. f_equal. lia.
Qed.

(** X7.  On every object, a step that returns stores exactly [n] blocks
    ([max(n, 0)] of them): blocks beyond the cached count are dropped,
    and [masses] keeps its length. *)
Theorem steps_store_n_blocks (s s' : Simulation) (dt : num) :
  step_euler G dt s = (Ok tt, s') \/ step_sieuler G dt s = (Ok tt, s') ->
  length (bodies s') = Z.to_nat (n s) /\ masses s' = masses s.
Proof.
  intros [Hrun|Hrun].
  - rewrite step_euler_unfold in Hrun.
    destruct (commit_cases dt (mapM (euler_slots G dt) (py_range 0 (n s))) s)
      as [(e & _ & He) | (new & Hnew & Hc)].
    + apply read_only_mapM. intros i. apply read_only_euler_slots.
    + rewrite He in Hrun. discriminate Hrun.
    + rewrite Hc in Hrun. injection Hrun as <-. simpl. split; [|reflexivity].
      rewrite (mapM_length _ _ _ _ _ Hnew). apply length_py_range.
  - rewrite step_sieuler_unfold in Hrun.
    destruct (commit_cases dt (mapM (sieuler_slots G dt) (py_range 0 (n s))) s)
      as [(e & _ & He) | (new & Hnew & Hc)].
    + apply read_only_mapM. intros i. apply read_only_sieuler_slots.
    + rewrite He in Hrun. discriminate Hrun.
    + rewrite Hc in Hrun. injection Hrun as <-. simpl. split; [|reflexivity].
      rewrite (mapM_length _ _ _ _ _ Hnew). apply length_py_range.
Qed.

End RaiseFacts.

(** ** The evaluator at the edges of its index *)

Section EvaluatorEdges.
Context {A : Arith}.
Variable G : num.

(** X8.  On every object, [dv_dt(i)] with [i] below [-len(bodies)] or at
    least [len(bodies)] raises [IndexError] without writing. *)
Theorem dv_dt_index_out_of_range (s : Simulation) (i : Z) :
  i < - Z.of_nat (length (bodies s)) \/ Z.of_nat (length (bodies s)) <= i ->
  dv_dt G i None s = (Raise IndexError, s).
Proof.
  intros Hi. unfold dv_dt. apply bind_raise.
  rewrite (bind_ok _ _ s (bodies s) s) by reflexivity.
  apply getitem_out. apply py_index_out. exact Hi.
Qed.

Lemma getitem_back {B} (l : list B) (i : Z) (d : B) (s : Simulation) :
  - Z.of_nat (length l) <= i < 0 ->
  getitem l i s = (Ok (nth (Z.to_nat (i + Z.of_nat (length l))) l d), s).
Proof.
  intros Hi. unfold getitem. rewrite py_index_back by exact Hi.
  set (k := Z.to_nat (i + Z.of_nat (length l))).
  assert (k < length l)%nat as Hk by lia.
  pose proof (py_index_front (length l) k Hk) as Hp.
  replace (Z.of_nat k) with (i + Z.of_nat (length l)) in Hp by lia.
  rewrite Hp. destruct (lookup_lt_is_Some_2 l k Hk) as [x Hx].
  rewrite Hx. erewrite nth_lookup_Some by exact Hx. reflexivity.
Qed.

(** With a negative index no pass of the loop is skipped. *)
Lemma dv_dt_back (s : Simulation) (i : Z) :
  consistent s -> - Z.of_nat (length (bodies s)) <= i < 0 ->
  dv_dt G i None s
  = (Ok (fold_left
           (fun F j =>
              vadd F (pull G (mass_at s j)
                           (vsub (pos (body_at s j))
                                 (pos (body_at s
                                    (Z.to_nat (i + Z.of_nat (length (bodies s)))))))))
           (seq 0 (length (bodies s))) vzeros), s).
Proof.
  intros Hc Hi. pose proof Hc as [Hn Hlen]. unfold dv_dt.
  set (k := Z.to_nat (i + Z.of_nat (length (bodies s)))).
  assert (getitem (bodies s) i s = (Ok (body_at s k), s)) as Hbi
    by (apply getitem_back; exact Hi).
  rewrite (bind_ok _ _ s (body_at s k) s).
  2:{ rewrite (bind_ok _ _ s (bodies s) s) by reflexivity. exact Hbi. }
  rewrite (bind_ok _ _ s (n s) s) by reflexivity.
  rewrite range_n by exact Hc.
  rewrite (foldM_ok _
    (fun F j => vadd F (pull G (mass_at s (Z.to_nat j))
                            (vsub (pos (body_at s (Z.to_nat j)))
                                  (pos (body_at s k)))))).
  - rewrite fold_left_of_nat. do 2 f_equal.
    apply fold_left_ext_in. intros F j _. rewrite Nat2Z.id. reflexivity.
  - intros F x Hx. apply in_map_iff in Hx as (j & <- & Hj).
    apply in_seq in Hj. rewrite Nat2Z.id.
    destruct (Z.eqb_spec i (Z.of_nat j)); [lia|].
    rewrite (bind_ok _ _ s (bodies s) s) by reflexivity.
    rewrite (bind_ok _ _ _ _ _ (body_lookup s j ltac:(lia))).
    rewrite (bind_ok _ _ _ _ _ Hbi).
    rewrite (bind_ok _ _ s (masses s) s) by reflexivity.
    rewrite (bind_ok _ _ _ _ _ (mass_lookup s j ltac:(lia))).
    reflexivity.
Qed.

(** A single body feels no pull. *)
Lemma dv_dt_lone (s : Simulation) (body : option Body) :
  consistent s -> length (bodies s) = 1%nat ->
  dv_dt G 0 body s = (Ok vzeros, s).
Proof.
  intros Hc H1. change 0 with (Z.of_nat 0).
  rewrite dv_dt_ok by (first [exact Hc | lia]).
  unfold accel. rewrite H1. reflexivity.
Qed.

End EvaluatorEdges.

Section B64Edges.
Import B64.
Local Abbreviation FA := B64.arith.

Lemma pull_fold_nan (G : spec_float) (s : @Simulation FA) (q : @vec FA)
    (l : list nat) :
  fold_left (fun F j => vadd F (pull (A:=FA) G (mass_at s j)
                                     (vsub (pos (body_at s j)) q)))
            l nan3 = nan3.
Proof.
  induction l as [|j l IH]; simpl; [reflexivity|].
  rewrite vadd_nan3_l. exact IH.
Qed.

Lemma pull_fold_hit (G : spec_float) (s : @Simulation FA) (k : nat)
    (l : list nat) (F0 : @vec FA) :
  In k l ->
  fold_left (fun F j => vadd F (pull (A:=FA) G (mass_at s j)
                                     (vsub (pos (body_at s j))
                                           (pos (body_at s k)))))
            l F0 = nan3.
Proof.
  intros Hk. revert F0. induction l as [|j l IH]; intros F0; [destruct Hk|].
  simpl. destruct Hk as [->|Hk].
  - rewrite pull_self, vadd_nan3_r. apply pull_fold_nan.
  - apply IH. exact Hk.
Qed.

(** X9.  In binary64, on a consistent object, [dv_dt(i)] with a negative
    index in [-len(bodies) .. -1] returns NaN in every coordinate: the
    test [i == j] never holds, so the addressed body is paired with
    itself at distance zero. *)
Theorem dv_dt_negative_index_nan (G : spec_float) (s : @Simulation FA) (i : Z) :
  consistent s -> - Z.of_nat (length (bodies s)) <= i < 0 ->
  dv_dt (A:=FA) G i None s = (Ok nan3, s).
Proof.
  intros Hc Hi. rewrite dv_dt_back by assumption. do 2 f_equal.
  apply pull_fold_hit. apply in_seq. lia.
Qed.

End B64Edges.

(** ** The remaining diagnostics *)

Section DiagnosticsMore.
Context {A : Arith}.

Lemma angular_sum_ok (rf : Body) (s : Simulation) :
  consistent s ->
  angular_sum rf s
  = (Ok (weighted_sum (fun b => cross (pos (body_sub b rf)) (vel (body_sub b rf))) s),
     s).
Proof.
  intros Hc. unfold angular_sum.
  rewrite (bind_ok _ _ s (n s) s) by reflexivity.
  apply (weighted_sum_ok
           (fun b => cross (pos (body_sub b rf)) (vel (body_sub b rf))) s Hc).
Qed.

Lemma consistent_empty (s : Simulation) :
  consistent s -> n s = 0 -> bodies s = [].
Proof.
  intros [Hn Hlen] H0. apply length_zero_iff_nil. lia.
Qed.

Lemma consistent_nonempty (s : Simulation) :
  consistent s -> 0 < n s -> bodies s <> [].
Proof.
  intros [Hn Hlen] Hpos Hnil. rewrite Hnil in Hlen. rewrite <- Hlen in Hn.
  simpl in Hn. lia.
Qed.

Lemma angular_momentum_empty (rf : Body) (s : Simulation) :
  consistent s -> n s = 0 -> angular_momentum rf s = (inr TypeError, s).
Proof.
  intros Hc H0. unfold angular_momentum. rewrite angular_sum_ok by exact Hc.
  rewrite weighted_sum_empty by (apply consistent_empty; assumption).
  reflexivity.
Qed.

Lemma to_xyz_axis (bs : list Body) (i : Z) (c : vec -> num) (s : Simulation) :
  (forall w, vec_getitem w i s = (Ok (c w), s)) ->
  mapM (fun b => vec_getitem (pos b) i) bs s = (Ok (map (fun b => c (pos b)) bs), s).
Proof.
  intros Hc. apply mapM_ok. intros b _. apply Hc.
Qed.

(** X10.  On every object, whatever [n] says, [to_xyz()] returns without
    writing: three lists with one entry per block of [bodies], the first,
    second and third coordinates of the positions, in index order. *)
Theorem to_xyz_value (s : Simulation) :
  to_xyz s
  = (Ok [map (fun b => vx (pos b)) (bodies s);
         map (fun b => vy (pos b)) (bodies s);
         map (fun b => vz (pos b)) (bodies s)], s).
Proof.
  unfold to_xyz. change (py_range 0 3) with [0; 1; 2].
  cbn [mapM].
  rewrite (bind_ok _ _ s (map (fun b => vx (pos b)) (bodies s)) s).
  2:{ rewrite (bind_ok _ _ s (bodies s) s) by reflexivity.
      apply to_xyz_axis. intros w. reflexivity. }
  rewrite (bind_ok _ _ s [map (fun b => vy (pos b)) (bodies s);
                          map (fun b => vz (pos b)) (bodies s)] s);
    [reflexivity|].
  rewrite (bind_ok _ _ s (map (fun b => vy (pos b)) (bodies s)) s).
  2:{ rewrite (bind_ok _ _ s (bodies s) s) by reflexivity.
      apply to_xyz_axis. intros w. reflexivity. }
  rewrite (bind_ok _ _ s [map (fun b => vz (pos b)) (bodies s)] s);
    [reflexivity|].
  rewrite (bind_ok _ _ s (map (fun b => vz (pos b)) (bodies s)) s).
  2:{ rewrite (bind_ok _ _ s (bodies s) s) by reflexivity.
      apply to_xyz_axis. intros w. reflexivity. }
  reflexivity.
Qed.

End DiagnosticsMore.

Section RealMore.
Variable rnd : R -> R.
Local Abbreviation RA := (R_arith rnd).
Local Open Scope R_scope.

(** In exact arithmetic the accumulator of [sum] is the vector of the
    coordinate sums. *)
Lemma weighted_sum_rows (row : @Body RA -> @vec RA) (s : @Simulation RA) :
  bodies s <> [] ->
  weighted_sum (A:=RA) row s
  = PyArr (@Vec RA
             (Rsum (seq 0 (length (bodies s)))
                   (fun i => mass_at s i * vx (row (body_at s i))))
             (Rsum (seq 0 (length (bodies s)))
                   (fun i => mass_at s i * vy (row (body_at s i))))
             (Rsum (seq 0 (length (bodies s)))
                   (fun i => mass_at s i * vz (row (body_at s i))))).
Proof.
  intros Hne. unfold weighted_sum.
  destruct (bodies s) as [|b bs] eqn:Hbs; [contradiction|].
  simpl length. rewrite <- cons_seq. simpl fold_left.
  rewrite py_add_fold. f_equal.
  apply vec_eq; simpl vx; simpl vy; simpl vz;
    rewrite coord_fold by (intros; reflexivity); simpl; lra.
Qed.

(** X11.  In exact real arithmetic, on a consistent object,
    [linear_momentum()] returns without writing: the number [0] when there
    is no body, and otherwise the array [sum_i m_i v_i]. *)
Theorem linear_momentum_value (s : @Simulation RA) :
  consistent s ->
  (n s = 0%Z -> linear_momentum (A:=RA) s = (Ok (@PyNum RA 0), s)) /\
  ((0 < n s)%Z -> linear_momentum (A:=RA) s = (Ok (PyArr (momentum rnd s)), s)).
Proof.
  intros Hc. split; intros Hn; rewrite linear_momentum_ok by exact Hc.
  - rewrite weighted_sum_empty by (apply consistent_empty; assumption).
    reflexivity.
  - rewrite weighted_sum_rows by (apply consistent_nonempty; assumption).
    reflexivity.
Qed.

(** X12.  In exact real arithmetic, on a consistent object,
    [angular_momentum(reference_frame)] returns without writing the third
    coordinate of [sum_i m_i (p_i - r_p) x (v_i - r_v)] when there is at
    least one body; with no body, in every arithmetic, it raises
    [TypeError], the empty sum being the number [0]. *)
Theorem angular_momentum_value :
  (forall (A : Arith) (rf : Body) (s : Simulation),
      consistent s -> n s = 0%Z ->
      angular_momentum rf s = (inr TypeError, s)) /\
  (forall (rf : @Body RA) (s : @Simulation RA),
      consistent s -> (0 < n s)%Z ->
      angular_momentum (A:=RA) rf s = (inl (angular_z rnd s rf), s)).
Proof.
  split.
  - intros A rf s. apply angular_momentum_empty.
  - intros rf s Hc Hn. unfold angular_momentum.
    rewrite angular_sum_ok by exact Hc.
    rewrite weighted_sum_rows by (apply consistent_nonempty; assumption).
    cbn [vz]. unfold angular_z. do 2 f_equal.
Qed.




(** X14.  In exact real arithmetic a single body moves uniformly: on a
    consistent object with one body, [dv_dt(0)] is the zero vector and
    [step_euler(dt)] stores position [pos + dt vel] and the same
    velocity. *)
Theorem lone_body_moves_uniformly (G dt : R) (s : @Simulation RA) (b : @Body RA) :
  consistent s -> bodies s = [b] ->
  dv_dt (A:=RA) G 0 None s = (Ok (@Vec RA 0 0 0), s) /\
  exists s', step_euler (A:=RA) G dt s = (Ok tt, s') /\
             bodies s'
             = [mkBody (@Vec RA (vx (pos b) + dt * vx (vel b))
                                (vy (pos b) + dt * vy (vel b))
                                (vz (pos b) + dt * vz (vel b)))
                       (vel b)].
Proof.
  intros Hc Hb. split.
  - apply (dv_dt_lone (A:=RA)); [exact Hc | rewrite Hb; reflexivity].
  - eexists. split; [apply step_euler_ok; exact Hc|].
    cbn [bodies set_t set_bodies]. rewrite Hb. cbn [length seq map].
    unfold body_at, accel. rewrite Hb. cbn [nth length seq fold_left Nat.eqb].
    rewrite euler_slot_real. do 2 f_equal.
    destruct b as [q [wx wy wz]]. simpl. f_equal; lra.
Qed.

Lemma body_at_translate (c : @vec RA) (s : @Simulation RA) (i : nat) :
  (i < length (bodies s))%nat ->
  body_at (translate c s) i
  = mkBody (vadd (pos (body_at s i)) c) (vel (body_at s i)).
Proof.
  intros Hi. unfold body_at, translate. cbn [bodies set_bodies].
  destruct (lookup_lt_is_Some_2 (bodies s) i Hi) as [b Hb].
  rewrite (nth_lookup_Some _ _ _ _ Hb).
  apply nth_lookup_Some.
  change (map ?f ?l) with (f <$> l). rewrite list_lookup_fmap, Hb. reflexivity.
Qed.

Lemma offset_translate (a b c : @vec RA) :
  vsub (vadd a c) (vadd b c) = vsub a b.
Proof. apply vec_eq; simpl; ring. Qed.

Lemma consistent_translate (c : @vec RA) (s : @Simulation RA) :
  consistent s -> consistent (translate c s).
Proof.
  intros [Hn Hlen]. split; [exact Hn|].
  unfold translate. cbn [bodies masses set_bodies]. rewrite length_map. exact Hlen.
Qed.

Lemma accel_translate (G : R) (c : @vec RA) (s : @Simulation RA) (i : nat) :
  (i < length (bodies s))%nat ->
  accel (A:=RA) G (translate c s) i (pos (body_at (translate c s) i))
  = accel (A:=RA) G s i (pos (body_at s i)).
Proof.
  intros Hi. unfold accel.
  replace (length (bodies (translate c s))) with (length (bodies s))
    by (unfold translate; cbn [bodies set_bodies]; rewrite length_map; reflexivity).
  apply fold_left_ext_in. intros F j Hj. apply in_seq in Hj.
  rewrite !body_at_translate by lia. cbn [pos].
  rewrite offset_translate. reflexivity.
Qed.

Lemma energy_acc_translate (G : R) (c : @vec RA) (s : @Simulation RA) :
  energy_acc (A:=RA) G (translate c s) = energy_acc (A:=RA) G s.
Proof.
  unfold energy_acc. cbv zeta.
  replace (length (bodies (translate c s))) with (length (bodies s))
    by (unfold translate; cbn [bodies set_bodies]; rewrite length_map; reflexivity).
  apply fold_left_ext_in. intros e i Hi. apply in_seq in Hi.
  rewrite (body_at_translate c s i) by lia. cbn [vel].
  apply fold_left_ext_in. intros e' j Hj. apply in_seq in Hj.
  rewrite !body_at_translate by lia. cbn [pos].
  rewrite offset_translate. reflexivity.
Qed.

(** X15.  In exact real arithmetic the evaluator and the energy depend on
    relative positions only: moving every body of a consistent object by
    the same vector changes neither what [dv_dt(i)] returns nor what
    [energy()] returns. *)
Theorem translation_invariance (G : R) (c : @vec RA) (s : @Simulation RA) (i : nat) :
  consistent s -> (i < length (bodies s))%nat ->
  fst (dv_dt (A:=RA) G (Z.of_nat i) None (translate c s))
  = fst (dv_dt (A:=RA) G (Z.of_nat i) None s) /\
  fst (energy (A:=RA) G (translate c s)) = fst (energy (A:=RA) G s).
Proof.
  intros Hc Hi. pose proof (consistent_translate c s Hc) as Hc'.
  split.
  - rewrite !dv_dt_ok; try assumption.
    + cbn [fst]. f_equal. apply accel_translate. exact Hi.
    + unfold translate. cbn [bodies set_bodies]. rewrite length_map. exact Hi.
  - rewrite !energy_ok by assumption. cbn [fst]. f_equal.
    apply energy_acc_translate.
Qed.

End RealMore.

(** ** The driver *)

Section DriverFacts.
Context {A : Arith}.

(** X16.  [toggle_running] flips [running] and nothing else of the
    simulation, sets the button text to [Pause] exactly when the
    simulation now runs, and applied twice gives the simulation back. *)
Theorem toggle_running_flips (d : Panel) :
  let d' := toggle_running d in
  running (panel_sim d') = negb (running (panel_sim d)) /\
  playpause_text d' = (if running (panel_sim d') then "Pause" else "Play") /\
  masses (panel_sim d') = masses (panel_sim d) /\
  bodies (panel_sim d') = bodies (panel_sim d) /\
  t (panel_sim d') = t (panel_sim d) /\
  n (panel_sim d') = n (panel_sim d) /\
  panel_sim (toggle_running d') = panel_sim d.
Proof.
  destruct d as [[ms bs t0 n0 r] txt]. destruct r; cbv; repeat split.
Qed.

Lemma draw_body_ok (W H : Z) (ms : list num) (i : nat) (b : Body)
    (m : num) (c : Z * Z * Z) :
  ms !! i = Some m -> COLORS !! i = Some c ->
  nis_zero (nadd m (of_int 20)) = false ->
  draw_body W H ms (Z.of_nat i) b = Ok (circle_for W H c m b).
Proof.
  intros Hm Hc Hz. unfold draw_body, py_getitem.
  rewrite py_index_front by (apply lookup_lt_Some in Hm; exact Hm).
  rewrite Hm, Hz.
  rewrite py_index_front by (apply lookup_lt_Some in Hc; exact Hc).
  rewrite Hc. reflexivity.
Qed.

Lemma draw_body_no_colour (W H : Z) (ms : list num) (i : nat) (b : Body) :
  radius_defined ms -> (4 <= i)%nat ->
  draw_body W H ms (Z.of_nat i) b = Raise IndexError.
Proof.
  intros Hr Hi. unfold draw_body, py_getitem.
  destruct (py_index (length ms) (Z.of_nat i)) as [k|] eqn:Hk; [|reflexivity].
  destruct (ms !! k) as [m|] eqn:Hm; [|reflexivity].
  rewrite (proj1 (Forall_forall _ _) Hr m)
    by (eapply list_elem_of_lookup_2; exact Hm).
  rewrite py_index_out by (simpl; lia). reflexivity.
Qed.

(** The loop on a prefix that can be drawn. *)
Lemma render_loop_ok (W H : Z) (ms : list num) (bs : list Body) :
  forall (i : nat) (screen : list circle),
    radius_defined ms ->
    (i + length bs <= length ms)%nat -> (i + length bs <= 4)%nat ->
    exists drawn,
      render_loop W H ms (Z.of_nat i) bs screen = (Ok tt, screen ++ drawn) /\
      length drawn = length bs /\
      forall k b m c, bs !! k = Some b -> ms !! (i + k)%nat = Some m ->
                      COLORS !! (i + k)%nat = Some c ->
                      drawn !! k = Some (circle_for W H c m b).
Proof.
  induction bs as [|b bs IH]; intros i screen Hr Hms Hcol.
  - exists []. rewrite app_nil_r. split; [reflexivity|]. split; [reflexivity|].
    intros k b m c Hb. discriminate Hb.
  - simpl in Hms, Hcol.
    destruct (lookup_lt_is_Some_2 ms i ltac:(lia)) as [m Hm].
    destruct (lookup_lt_is_Some_2 COLORS i ltac:(simpl; lia)) as [c Hc].
    assert (nis_zero (nadd m (of_int 20)) = false) as Hz.
    { apply (proj1 (Forall_forall _ _) Hr).
      eapply list_elem_of_lookup_2. exact Hm. }
    simpl render_loop. rewrite (draw_body_ok W H ms i b m c Hm Hc Hz).
    replace (Z.of_nat i + 1) with (Z.of_nat (S i)) by lia.
    destruct (IH (S i) (screen ++ [circle_for W H c m b]) Hr ltac:(lia) ltac:(lia))
      as (drawn & Hrun & Hlen & Hat).
    exists (circle_for W H c m b :: drawn). rewrite Hrun, <- app_assoc.
    split; [reflexivity|]. split; [simpl; f_equal; exact Hlen|].
    intros [|k] b' m' c' Hb Hm' Hc'.
    + rewrite Nat.add_0_r in Hm', Hc'. simpl in Hb.
      rewrite Hm in Hm'. rewrite Hc in Hc'.
      injection Hb as <-. injection Hm' as <-. injection Hc' as <-. reflexivity.
    + simpl. apply (Hat k b' m' c' Hb).
      * rewrite <- Hm'. f_equal. lia.
      * rewrite <- Hc'. f_equal. lia.
Qed.

(** X17.  With the two lists in lock-step, at most four bodies and no
    mass equal to [-20], the drawing loop returns after one circle per
    body, in index order: colour [COLORS[k]], centre
    [pos * HEIGHT/3 + [WIDTH/2, HEIGHT/2]] and radius
    [(16 m + 80)/(m + 20)]. *)
Theorem render_draws_every_body (W H : Z) (s : Simulation) :
  length (masses s) = length (bodies s) ->
  radius_defined (masses s) ->
  (length (bodies s) <= 4)%nat ->
  exists screen,
    render W H s = (Ok tt, screen) /\
    length screen = length (bodies s) /\
    forall k b m c, bodies s !! k = Some b -> masses s !! k = Some m ->
                    COLORS !! k = Some c ->
                    screen !! k = Some (circle_for W H c m b).
Proof.
  intros Hlen Hr H4. unfold render.
  destruct (render_loop_ok W H (masses s) (bodies s) 0 [] Hr) as
    (drawn & Hrun & Hl & Hat); [simpl; lia | simpl; lia |].
  exists drawn. split; [exact Hrun|]. split; [exact Hl|]. exact Hat.
Qed.

(** X18.  With the two lists in lock-step and no mass equal to [-20], a
    fifth body makes the drawing loop raise [IndexError], the palette
    having four colours; the first four circles are on the screen by
    then. *)
Theorem render_fails_on_fifth_body (W H : Z) (s : Simulation) :
  length (masses s) = length (bodies s) ->
  radius_defined (masses s) ->
  (4 < length (bodies s))%nat ->
  exists screen, render W H s = (Raise IndexError, screen) /\
                 length screen = 4%nat.
Proof.
  intros Hlen Hr H5. unfold render.
  rewrite <- (take_drop 4 (bodies s)).
  assert (length (take 4 (bodies s)) = 4%nat) as Ht
    by (rewrite length_take; lia).
  destruct (drop 4 (bodies s)) as [|b5 rest] eqn:Hd.
  { apply (f_equal length) in Hd. rewrite length_drop in Hd. simpl in Hd. lia. }
  assert (forall front (i : nat) screen,
            (i + length front <= length (masses s))%nat ->
            (i + length front = 4)%nat ->
            exists drawn,
              render_loop W H (masses s) (Z.of_nat i) (front ++ b5 :: rest) screen
              = (Raise IndexError, screen ++ drawn) /\
              length drawn = length front) as Hloop.
  { induction front as [|b front IH]; intros i screen Hms Hi.
    - exists []. simpl in Hi. rewrite app_nil_r. simpl.
      rewrite draw_body_no_colour by (first [exact Hr | lia]).
      split; reflexivity.
    - simpl in Hms, Hi.
      destruct (lookup_lt_is_Some_2 (masses s) i ltac:(lia)) as [m Hm].
      destruct (lookup_lt_is_Some_2 COLORS i ltac:(simpl; lia)) as [c Hc].
      assert (nis_zero (nadd m (of_int 20)) = false) as Hz.
      { apply (proj1 (Forall_forall _ _) Hr).
        eapply list_elem_of_lookup_2. exact Hm. }
      simpl. rewrite (draw_body_ok W H (masses s) i b m c Hm Hc Hz).
      replace (Z.of_nat i + 1) with (Z.of_nat (S i)) by lia.
      destruct (IH (S i) (screen ++ [circle_for W H c m b]) ltac:(lia) ltac:(lia))
        as (drawn & Hrun & Hl).
      exists (circle_for W H c m b :: drawn). rewrite Hrun, <- app_assoc.
      split; [reflexivity | simpl; f_equal; exact Hl]. }
  destruct (Hloop (take 4 (bodies s)) 0%nat []) as (drawn & Hrun & Hl);
    [rewrite Ht; lia | rewrite Ht; reflexivity |].
  exists drawn. split; [exact Hrun | rewrite Hl; exact Ht].
Qed.

End DriverFacts.

Section RadiusFacts.
Variable rnd : R -> R.
Local Abbreviation RA := (R_arith rnd).
Local Open Scope R_scope.

(** X19.  In exact real arithmetic, a body of non-negative mass at one of
    the four palette indices is drawn, with a radius of at least 4 and
    below 16. *)
Theorem drawn_radius_bounds (W H : Z) (ms : list R) (i : Z) (b : @Body RA) (m : R) :
  py_getitem ms i = Ok m -> 0 <= m -> (0 <= i < 4)%Z ->
  exists c, draw_body (A:=RA) W H ms i b = Ok c /\ 4 <= c_radius c < 16.
Proof.
  intros Hm Hpos Hi. unfold draw_body.
  change (@py_getitem (@num RA) ms i) with (@py_getitem R ms i). rewrite Hm.
  assert (@nis_zero RA (@nadd RA m (@of_int RA 20)) = false) as Hz.
  { simpl. unfold Rzerob. destruct (Req_EM_T (m + 20) 0); [lra | reflexivity]. }
  rewrite Hz.
  assert (exists c, py_getitem COLORS i = Ok c) as [c Hc].
  { assert (i = 0 \/ i = 1 \/ i = 2 \/ i = 3)%Z as [ -> | [ -> | [ -> | -> ] ] ] by lia;
      eexists; reflexivity. }
  rewrite Hc. eexists. split; [reflexivity|]. simpl.
  assert (0 < m + 20) as Hd by lra. unfold Rdiv. split.
  - apply (Rmult_le_reg_r (m + 20)); [exact Hd|].
    rewrite Rmult_assoc, Rinv_l by lra. lra.
  - apply (Rmult_lt_reg_r (m + 20)); [exact Hd|].
    rewrite Rmult_assoc, Rinv_l by lra. lra.
Qed.

End RadiusFacts.

(** ** The frame time in binary64 *)

Section FrameFacts.
Import B64.
Local Abbreviation FA := B64.arith.

Lemma shr_1_nonneg (mrs : shr_record) :
  0 <= shr_m mrs -> 0 <= shr_m (shr_1 mrs).
Proof.
  destruct mrs as [m r s]. simpl.
  destruct m as [|[p|p|]|[p|p|]]; simpl; lia.
Qed.

Lemma iter_shr_1_nonneg (p : positive) (mrs : shr_record) :
  0 <= shr_m mrs -> 0 <= shr_m (SpecFloat.iter_pos shr_1 p mrs).
Proof.
  revert mrs. induction p as [p IH|p IH|]; intros mrs Hm; simpl.
  - apply IH, IH, shr_1_nonneg, Hm.
  - apply IH, IH, Hm.
  - apply shr_1_nonneg, Hm.
Qed.

Lemma shr_fexp_nonneg (m e : Z) (l : location) :
  0 <= m -> 0 <= shr_m (fst (shr_fexp prec emax m e l)).
Proof.
  intros Hm. unfold shr_fexp, shr.
  assert (shr_m (shr_record_of_loc m l) = m) as Hrec
    by (destruct l as [|[| |]]; reflexivity).
  destruct (fexp prec emax (Zdigits2 m + e) - e) as [|p|p]; simpl;
    try (rewrite Hrec; exact Hm).
  apply iter_shr_1_nonneg. rewrite Hrec. exact Hm.
Qed.

Lemma round_nearest_even_nonneg (m : Z) (l : location) :
  0 <= m -> 0 <= round_nearest_even m l.
Proof.
  intros Hm. destruct l as [|[| |]]; simpl; try lia.
  destruct (Z.even m); lia.
Qed.

(** Rounding a non-negative significand never gives NaN. *)
Lemma binary_round_aux_not_nan (sx : bool) (mx ex : Z) (lx : location) :
  0 <= mx -> binary_round_aux prec emax sx mx ex lx <> S754_nan.
Proof.
  intros Hm. unfold binary_round_aux.
  pose proof (shr_fexp_nonneg mx ex lx Hm) as H1.
  destruct (shr_fexp prec emax mx ex lx) as [mrs' e']. simpl in H1.
  pose proof (shr_fexp_nonneg
                (round_nearest_even (shr_m mrs') (loc_of_shr_record mrs')) e'
                loc_Exact (round_nearest_even_nonneg _ _ H1)) as H2.
  destruct (shr_fexp prec emax _ e' loc_Exact) as [mrs'' e'']. simpl in H2.
  destruct (shr_m mrs'') as [|p|p]; [discriminate | | lia].
  destruct (e'' <=? emax - prec); discriminate.
Qed.

Lemma of_Z_not_nan (z : Z) : of_Z z <> S754_nan.
Proof.
  unfold of_Z, binary_normalize. destruct z as [|p|p]; [discriminate | |];
    unfold binary_round;
    destruct (shl_align _ _ _) as [mz ez];
    apply binary_round_aux_not_nan; lia.
Qed.

Lemma div_by_1000_not_nan (x : spec_float) :
  x <> S754_nan -> SFdiv prec emax x (of_Z 1000) <> S754_nan.
Proof.
  intros Hx.
  change (of_Z 1000) with (S754_finite false 8796093022208000 (-43)).
  destruct x as [sx|sx| |sx mx ex]; try discriminate; [contradiction|].
  cbv beta iota delta [SFdiv].
  unfold SFdiv_core_binary.
  set (m' := match ex - -43 - _ with Z0 => _ | Zpos _ => _ | Zneg _ => _ end).
  assert (0 <= m') as Hm'.
  { subst m'. destruct (ex - -43 - _) as [|p|p]; [lia | | lia].
    apply Z.shiftl_nonneg. lia. }
  pose proof (Z.div_pos m' 8796093022208000 Hm' ltac:(lia)) as Hq.
  unfold Z.div in Hq.
  destruct (Z.div_eucl m' 8796093022208000) as [q r].
  apply binary_round_aux_not_nan. exact Hq.
Qed.

(** The order on numbers that are not NaN is total. *)
Lemma SFleb_total (x y : spec_float) :
  x <> S754_nan -> y <> S754_nan -> SFleb x y = false -> SFleb y x = true.
Proof.
  intros Hx Hy. unfold SFleb, SFcompare.
  destruct x as [sx|sx| |sx mx ex]; try contradiction;
    destruct y as [sy|sy| |sy my ey]; try contradiction;
    try (destruct sx, sy; simpl; congruence).
  destruct sx, sy; try (simpl; congruence).
  - rewrite (Z.compare_antisym ex ey).
    destruct (ex ?= ey) eqn:He; simpl; try congruence.
    pose proof (Pos.compare_cont_antisym mx my Eq) as Ha.
    change (CompOpp Eq) with Eq in Ha. rewrite <- Ha.
    destruct (Pos.compare_cont Eq mx my); simpl; congruence.
  - rewrite (Z.compare_antisym ex ey).
    destruct (ex ?= ey) eqn:He; simpl; try congruence.
    pose proof (Pos.compare_cont_antisym mx my Eq) as Ha.
    change (CompOpp Eq) with Eq in Ha. rewrite <- Ha.
    destruct (Pos.compare_cont Eq mx my); simpl; congruence.
Qed.

(** X20.  In binary64, for every frame duration in milliseconds, a paused
    simulation is left untouched by the frame, a running one is advanced
    by [step_sieuler] with the frame's time step, and that time step is
    never above the cap [0.03]. *)
Theorem frame_step_capped (G : spec_float) (ms : Z) (s : @Simulation FA) :
  (running s = false -> frame (A:=FA) G B64_ge ms s = (Ok tt, s)) /\
  (running s = true ->
     frame (A:=FA) G B64_ge ms s
     = step_sieuler (A:=FA) G (frame_dt (A:=FA) B64_ge ms) s) /\
  SFleb (frame_dt (A:=FA) B64_ge ms) (dt_cap (A:=FA)) = true.
Proof.
  split; [|split].
  - intros Hr. unfold frame.
    rewrite (bind_ok _ _ s (running s) s) by reflexivity.
    rewrite Hr. reflexivity.
  - intros Hr. unfold frame.
    rewrite (bind_ok _ _ s (running s) s) by reflexivity.
    rewrite Hr. reflexivity.
  - unfold frame_dt. cbv zeta. unfold B64_ge.
    destruct (SFleb (dt_cap (A:=FA)) _) eqn:Hcmp; [reflexivity|].
    apply SFleb_total in Hcmp; [exact Hcmp | discriminate |].
    apply div_by_1000_not_nan. apply of_Z_not_nan.
Qed.

End FrameFacts.

(** ** The further theorems at concrete objects *)

Section MoreInstances.
Import B64. Import Stage.
Local Abbreviation FA := B64.arith.
Local Abbreviation RI := (R_arith (fun x : R => x)).

Lemma set_body_then_lookup_witness :
  length (masses scene) = length (bodies scene) /\
  getitem (masses (snd (set_body (A:=FA) 1 (of_Z 2) (ints 5 5 5) (ints 0 0 0) scene)))
          1 (snd (set_body (A:=FA) 1 (of_Z 2) (ints 5 5 5) (ints 0 0 0) scene))
  = (Ok (of_Z 2), snd (set_body (A:=FA) 1 (of_Z 2) (ints 5 5 5) (ints 0 0 0) scene)).
Proof.
  split; [reflexivity|].
  apply (set_body_then_lookup (A:=FA) scene _ 1 (of_Z 2) (ints 5 5 5) (ints 0 0 0)
           eq_refl eq_refl).
Defined.

Lemma remove_body_shifts_witness :
  length (masses scene) = length (bodies scene) /\
  n (snd (remove_body (A:=FA) 0 scene)) = n scene - 1.
Proof.
  split; [reflexivity|].
  destruct (remove_body_shifts (A:=FA) scene _ 0 eq_refl eq_refl)
    as (k & _ & Hn & _).
  exact Hn.
Defined.

Lemma mutators_fail_half_way_witness :
  Z.of_nat (length (bodies short_bodies)) <= 1
    < Z.of_nat (length (masses short_bodies)) /\
  exists s', set_body (A:=FA) 1 (of_Z 2) (ints 5 5 5) (ints 0 0 0) short_bodies
             = (Raise IndexError, s') /\
             masses s' !! 1%nat = Some (of_Z 2).
Proof.
  assert (Z.of_nat (length (bodies short_bodies)) <= 1
            < Z.of_nat (length (masses short_bodies))) as Hi by (simpl; lia).
  split; [exact Hi|].
  destruct (proj1 (mutators_fail_half_way (A:=FA) short_bodies 1 (of_Z 2)
                     (ints 5 5 5) (ints 0 0 0) Hi))
    as (s' & Hrun & Hm & _).
  exists s'. split; [exact Hrun | exact Hm].
Defined.

Lemma steps_raise_on_short_bodies_witness :
  Z.of_nat (length (bodies short_bodies)) < n short_bodies /\
  step_sieuler (A:=FA) G0 dt0 short_bodies = (Raise IndexError, short_bodies).
Proof.
  assert (Z.of_nat (length (bodies short_bodies)) < n short_bodies) as Hn
    by (simpl; lia).
  split; [exact Hn|].
  apply (proj2 (steps_raise_on_short_bodies (A:=FA) G0 short_bodies dt0 Hn)).
Defined.

Lemma steps_store_n_blocks_witness :
  length (bodies short_masses) = 2%nat /\
  length (bodies (snd (step_euler (A:=FA) G0 dt0 short_masses)))
  = Z.to_nat (n short_masses).
Proof.
  split; [reflexivity|].
  apply (proj1 (steps_store_n_blocks (A:=FA) G0 short_masses _ dt0
                  (or_introl eq_refl))).
Defined.

Lemma dv_dt_index_out_of_range_witness :
  Z.of_nat (length (bodies scene)) <= 3 /\
  dv_dt (A:=FA) G0 3 None scene = (Raise IndexError, scene).
Proof.
  split; [simpl; lia|].
  apply (dv_dt_index_out_of_range (A:=FA) G0 scene 3). right. simpl. lia.
Defined.

Lemma dv_dt_negative_index_nan_witness :
  consistent scene /\ dv_dt (A:=FA) G0 (-1) None scene = (Ok nan3, scene).
Proof.
  assert (consistent scene) as Hc by (split; reflexivity).
  split; [exact Hc|].
  apply (dv_dt_negative_index_nan G0 scene (-1) Hc). simpl. lia.
Defined.

Lemma pair_R_consistent : consistent (pair_R (fun x : R => x)).
Proof. split; reflexivity. Qed.

Lemma linear_momentum_value_witness :
  consistent (pair_R (fun x : R => x)) /\
  linear_momentum (A:=RI) (pair_R (fun x : R => x))
  = (Ok (PyArr (momentum (fun x : R => x) (pair_R (fun x : R => x)))),
     pair_R (fun x : R => x)).
Proof.
  split; [exact pair_R_consistent|].
  apply (proj2 (linear_momentum_value (fun x : R => x) _ pair_R_consistent)).
  simpl. lia.
Defined.

Lemma angular_momentum_value_witness :
  angular_momentum (A:=FA) zero_frame (__init__ (A:=FA) [] [])
  = (inr TypeError, __init__ (A:=FA) [] []) /\
  angular_momentum (A:=RI) zero_frame (pair_R (fun x : R => x))
  = (inl (angular_z (fun x : R => x) (pair_R (fun x : R => x)) zero_frame),
     pair_R (fun x : R => x)).
Proof.
  destruct (angular_momentum_value (fun x : R => x)) as [Hempty Hreal].
  split.
  - apply (Hempty FA zero_frame (__init__ (A:=FA) [] [])); [split|]; reflexivity.
  - apply (Hreal zero_frame _ pair_R_consistent). simpl. lia.
Defined.


Lemma lone_body_moves_uniformly_witness :
  consistent (__init__ (A:=RI) [2%R]
                [mkBody (@Vec RI 1%R 0%R 0%R) (@Vec RI 0%R 1%R 0%R)]) /\
  dv_dt (A:=RI) 1%R 0 None
        (__init__ (A:=RI) [2%R]
           [mkBody (@Vec RI 1%R 0%R 0%R) (@Vec RI 0%R 1%R 0%R)])
  = (Ok (@Vec RI 0%R 0%R 0%R),
     __init__ (A:=RI) [2%R]
       [mkBody (@Vec RI 1%R 0%R 0%R) (@Vec RI 0%R 1%R 0%R)]).
Proof.
  assert (consistent (__init__ (A:=RI) [2%R]
            [mkBody (@Vec RI 1%R 0%R 0%R) (@Vec RI 0%R 1%R 0%R)])) as Hc
    by (split; reflexivity).
  split; [exact Hc|].
  apply (proj1 (lone_body_moves_uniformly (fun x : R => x) 1%R 1%R _ _ Hc eq_refl)).
Defined.

Lemma translation_invariance_witness :
  consistent (pair_R (fun x : R => x)) /\
  fst (energy (A:=RI) 1%R
         (translate (@Vec RI 3%R 4%R 5%R) (pair_R (fun x : R => x))))
  = fst (energy (A:=RI) 1%R (pair_R (fun x : R => x))).
Proof.
  split; [exact pair_R_consistent|].
  apply (proj2 (translation_invariance (fun x : R => x) 1%R
                  (@Vec RI 3%R 4%R 5%R) _ 0%nat pair_R_consistent
                  ltac:(simpl; lia))).
Defined.

Lemma scene_radius_defined : radius_defined (A:=FA) (masses scene).
Proof. repeat (constructor; [reflexivity|]). constructor. Qed.

Lemma crowd_radius_defined : radius_defined (A:=FA) (masses crowd).
Proof. repeat (constructor; [reflexivity|]). constructor. Qed.

Lemma render_draws_every_body_witness :
  length (masses scene) = length (bodies scene) /\
  (length (bodies scene) <= 4)%nat /\
  exists screen, render (A:=FA) 640 480 scene = (Ok tt, screen) /\
                 length screen = 3%nat.
Proof.
  split; [reflexivity|]. split; [simpl; lia|].
  destruct (render_draws_every_body (A:=FA) 640 480 scene eq_refl
              scene_radius_defined ltac:(simpl; lia))
    as (screen & Hrun & Hlen & _).
  exists screen. split; [exact Hrun | exact Hlen].
Defined.

Lemma render_fails_on_fifth_body_witness :
  length (masses crowd) = length (bodies crowd) /\
  (4 < length (bodies crowd))%nat /\
  exists screen, render (A:=FA) 640 480 crowd = (Raise IndexError, screen) /\
                 length screen = 4%nat.
Proof.
  split; [reflexivity|]. split; [simpl; lia|].
  apply (render_fails_on_fifth_body (A:=FA) 640 480 crowd eq_refl
           crowd_radius_defined).
  simpl. lia.
Defined.

Lemma drawn_radius_bounds_witness :
  py_getitem [1%R] 0 = Ok 1%R /\
  exists c, draw_body (A:=RI) 640 480 [1%R] 0
                      (mkBody (@Vec RI 0%R 0%R 0%R) (@Vec RI 0%R 0%R 0%R)) = Ok c /\
            (4 <= c_radius c < 16)%R.
Proof.
  split; [reflexivity|].
  apply (drawn_radius_bounds (fun x : R => x) 640 480 [1%R] 0 _ 1%R eq_refl);
    [lra | lia].
Defined.

Lemma frame_step_capped_witness :
  running scene = true /\
  frame (A:=FA) G0 B64_ge 8 scene
  = step_sieuler (A:=FA) G0 (frame_dt (A:=FA) B64_ge 8) scene /\
  SFleb (frame_dt (A:=FA) B64_ge 100) (dt_cap (A:=FA)) = true.
Proof.
  split; [reflexivity|]. split.
  - apply (proj1 (proj2 (frame_step_capped G0 8 scene))). reflexivity.
  - apply (proj2 (proj2 (frame_step_capped G0 100 scene))).
Defined.

End MoreInstances.

(** ** How the methods relate *)

Section Relations.
Context {A : Arith}.
Variable G : num.

Lemma read_only_weighted (row : Body -> vec) (cnt : Z) (acc : pyval) :
  read_only
    (foldM (fun acc i =>
              bind (gets masses) (fun ms =>
              bind (getitem ms i) (fun mi =>
              bind (gets bodies) (fun bs =>
              bind (getitem bs i) (fun bi =>
              ret (py_add acc (smul_l mi (row bi))))))))
           (py_range 0 cnt) acc).
Proof.
  apply read_only_foldM. intros a i.
  repeat (first [ apply read_only_ret | apply read_only_gets
                | apply read_only_getitem
                | apply read_only_bind; [|intros ?] ]).
Qed.

Lemma read_only_center_of_mass : read_only center_of_mass.
Proof.
  unfold center_of_mass. apply read_only_bind; [apply read_only_gets|].
  intros cnt. apply read_only_bind; [apply (read_only_weighted pos)|].
  intros w. apply read_only_bind; [apply read_only_gets|]. intros ms.
  unfold py_truediv. destruct w as [x|v].
  - destruct (nis_zero _); [apply read_only_raise | apply read_only_ret].
  - apply read_only_ret.
Qed.

Lemma read_only_linear_momentum : read_only linear_momentum.
Proof.
  unfold linear_momentum. apply read_only_bind; [apply read_only_gets|].
  intros cnt. apply (read_only_weighted vel).
Qed.

Lemma read_only_angular_sum (rf : Body) : read_only (angular_sum rf).
Proof.
  unfold angular_sum. apply read_only_bind; [apply read_only_gets|].
  intros cnt.
  apply (read_only_weighted
           (fun b => cross (pos (body_sub b rf)) (vel (body_sub b rf)))).
Qed.

(** X21.  On every object, returning or raising, [dv_dt], [ode],
    [center_of_mass], [linear_momentum] and [angular_momentum] leave the
    object exactly as it was. *)
Theorem queries_write_nothing
    (s : Simulation) (i : Z) (body : option Body) (rf : Body) :
  snd (dv_dt G i body s) = s /\
  snd (ode G i body s) = s /\
  snd (center_of_mass s) = s /\
  snd (linear_momentum s) = s /\
  snd (angular_momentum rf s) = s.
Proof.
  split; [apply read_only_dv_dt|]. split; [apply read_only_ode|].
  split; [apply read_only_center_of_mass|].
  split; [apply read_only_linear_momentum|].
  unfold angular_momentum. pose proof (read_only_angular_sum rf s) as H.
  destruct (angular_sum rf s) as [[[x|w]|e] s']; simpl in H; subst s';
    reflexivity.
Qed.

(** X22.  On a consistent object the two integrators agree up to the
    correction and the rounding: the velocity stored by [step_sieuler] is
    the single-precision round trip of the one stored by [step_euler], and
    its position the round trip of the Euler position advanced by
    [a * dt * dt], [a] being what [dv_dt(i)] returns before the step. *)
Theorem sieuler_rounds_euler (s : Simulation) (dt : num) :
  consistent s ->
  exists se ss,
    step_euler G dt s = (Ok tt, se) /\
    step_sieuler G dt s = (Ok tt, ss) /\
    t ss = t se /\
    forall i be, bodies se !! i = Some be ->
      exists a, dv_dt G (Z.of_nat i) None s = (Ok a, s) /\
                bodies ss !! i
                = Some (mkBody
                          (vmap nsingle (vadd (pos be) (smul_r (smul_r a dt) dt)))
                          (vmap nsingle (vel be))).
Proof.
  intros Hc. do 2 eexists.
  split; [apply step_euler_ok; exact Hc|].
  split; [apply step_sieuler_ok; exact Hc|].
  split; [reflexivity|].
  cbn [bodies set_t set_bodies]. intros i be Hbe.
  assert (i < length (bodies s))%nat as Hi.
  { apply lookup_lt_Some in Hbe. rewrite length_map_seq in Hbe. exact Hbe. }
  rewrite slots_lookup in Hbe by exact Hi. injection Hbe as <-.
  exists (accel G s i (pos (body_at s i))).
  split; [apply dv_dt_ok; assumption|].
  rewrite slots_lookup by exact Hi. reflexivity.
Qed.

End Relations.

Section RealRelations.
Variable rnd : R -> R.
Local Abbreviation RA := (R_arith rnd).
Local Open Scope R_scope.



Lemma fold_left_snoc {B C} (f : C -> B -> C) (l : list B) (x : B) (a : C) :
  fold_left f (l ++ [x]) a = f (fold_left f l a) x.
Proof. rewrite fold_left_app. reflexivity. Qed.

Lemma pull_massless (G : R) (off : @vec RA) (F : @vec RA) :
  vadd F (pull (A:=RA) G 0 off) = F.
Proof.
  destruct F as [x y z], off as [a b c]. apply vec_eq; simpl;
    unfold Rdiv; ring.
Qed.

(** X24.  In exact real arithmetic a body of mass zero pulls on nothing:
    on a consistent object, after [add_body(0, p, v)] with [p] away from
    body [i], [dv_dt(i)] returns what it returned before. *)
Theorem massless_body_pulls_nothing
    (G : R) (s : @Simulation RA) (p v : @vec RA) (i : nat) :
  consistent s -> (i < length (bodies s))%nat -> p <> pos (body_at s i) ->
  fst (dv_dt (A:=RA) G (Z.of_nat i) None (snd (add_body (A:=RA) 0 p v s)))
  = fst (dv_dt (A:=RA) G (Z.of_nat i) None s).
Proof.
  intros Hc Hi _. rewrite add_body_run. cbn [snd].
  match goal with |- fst (dv_dt _ _ _ ?x) = _ => set (s' := x) end.
  assert (consistent s') as Hc'.
  { destruct (add_body_consistent (A:=RA) s s' 0 p v Hc) as [H _];
      [reflexivity | exact H]. }
  pose proof Hc as [Hn Hlen].
  assert (length (bodies s') = S (length (bodies s))) as Hl'.
  { subst s'. cbn [bodies set_n set_bodies]. rewrite length_app. simpl. lia. }
  assert (forall j, (j < length (bodies s))%nat ->
                    body_at s' j = body_at s j /\ mass_at s' j = mass_at s j) as Hat.
  { intros j Hj. subst s'. unfold body_at, mass_at.
    cbn [bodies masses set_n set_bodies set_masses].
    split; apply app_nth1; lia. }
  assert (mass_at s' (length (bodies s)) = 0) as Hm0.
  { subst s'. unfold mass_at. cbn [masses set_n set_bodies set_masses].
    rewrite app_nth2 by lia. rewrite Hlen, Nat.sub_diag. reflexivity. }
  assert (i < length (bodies s'))%nat as Hi' by (rewrite Hl'; lia).
  rewrite (dv_dt_ok (A:=RA) G s' i None Hc' Hi').
  rewrite (dv_dt_ok (A:=RA) G s i None Hc Hi). cbn [fst]. f_equal.
  unfold accel. rewrite Hl', seq_S, fold_left_snoc. simpl.
  destruct (Nat.eqb_spec i (length (bodies s))) as [Heq|_]; [lia|].
  rewrite Hm0, pull_massless.
  apply fold_left_ext_in. intros F j Hj. apply in_seq in Hj.
  destruct (Hat j ltac:(lia)) as [Hbj Hmj]. destruct (Hat i Hi) as [Hbi _].
  rewrite Hbj, Hmj, Hbi. reflexivity.
Qed.

End RealRelations.

Section RelationInstances.
Import B64.
Local Abbreviation FA := B64.arith.
Local Abbreviation RI := (R_arith (fun x : R => x)).

Lemma sieuler_rounds_euler_witness :
  consistent scene /\
  exists se ss,
    step_euler (A:=FA) G0 dt0 scene = (Ok tt, se) /\
    step_sieuler (A:=FA) G0 dt0 scene = (Ok tt, ss) /\
    t ss = t se.
Proof.
  assert (consistent scene) as Hc by (split; reflexivity).
  split; [exact Hc|].
  destruct (sieuler_rounds_euler (A:=FA) G0 scene dt0 Hc)
    as (se & ss & He & Hs & Ht & _).
  exists se, ss. split; [exact He|]. split; [exact Hs | exact Ht].
Defined.


Lemma massless_body_pulls_nothing_witness :
  consistent (pair_R (fun x : R => x)) /\
  fst (dv_dt (A:=RI) 1%R 0 None
         (snd (add_body (A:=RI) 0%R (@Vec RI 5%R 0%R 0%R) (@Vec RI 0%R 0%R 0%R)
                        (pair_R (fun x : R => x)))))
  = fst (dv_dt (A:=RI) 1%R 0 None (pair_R (fun x : R => x))).
Proof.
  split; [exact pair_R_consistent|].
  apply (massless_body_pulls_nothing (fun x : R => x) 1%R _
           (@Vec RI 5%R 0%R 0%R) (@Vec RI 0%R 0%R 0%R) 0%nat pair_R_consistent).
  - simpl. lia.
  - simpl. intros H. injection H. intros. lra.
Defined.

End RelationInstances.
